(** * Commission reports: a shallow embedding of [commission.js]

    The program reads a CSV of broker cases, normalises case values to GBP,
    computes a base commission and a tiered bonus per case, and optionally
    condenses the result into one total per broker.

    JavaScript strings are sequences of UTF-16 code units, modelled as
    [list N]; JavaScript numbers are IEEE 754 binary64 values, modelled with
    the Standard Library's [spec_float] at precision 53 and [emax] 1024
    (NaN payloads, which JavaScript cannot observe, are not represented).
    A thrown exception is an explicit [Throw] result. *)

From Stdlib Require Import ZArith NArith List Ascii String.
From Stdlib Require Import Floats.SpecFloat.
From stdpp Require Import base list sorting gmap.

Local Open Scope Z_scope.

(* ===================================================================== *)
(** * Part I: definitions                                                 *)
(* ===================================================================== *)

(** ** JavaScript strings *)

Abbreviation jsstring := (list N).

(** An ASCII literal as a JavaScript string. *)
Definition js (s : string) : jsstring :=
  N_of_ascii <$> list_ascii_of_string s.

Definition pound : N := 163%N.        (* U+00A3, the sign written in the source *)
Definition comma : jsstring := [44%N].
Definition crlf : jsstring := [13%N; 10%N].

(** [s.startsWith(p)] *)
Fixpoint startsWith (p s : jsstring) : bool :=
  match p, s with
  | [], _ => true
  | _ :: _, [] => false
  | a :: p', b :: s' => (a =? b)%N && startsWith p' s'
  end.

(** [s.split(sep)] for a string separator and no limit: successive
    non-overlapping occurrences of [sep], found from the left, delimit the
    fields.  [skip] counts the code units of a matched separator that are
    still to be passed over. *)
Fixpoint split_from (sep : jsstring) (skip : nat) (s : jsstring) : list jsstring :=
  match s with
  | [] => [[]]
  | c :: s' =>
      match skip with
      | S k => split_from sep k s'
      | O =>
          if startsWith sep s
          then [] :: split_from sep (length sep - 1) s'
          else match split_from sep 0 s' with
               | f :: fs => (c :: f) :: fs
               | [] => [[c]]
               end
      end
  end.

Definition split (sep s : jsstring) : list jsstring :=
  match sep with
  | [] => (λ c, [c]) <$> s
  | _ :: _ => split_from sep 0 s
  end.

(** [fields.join(sep)] on an array of strings *)
Fixpoint join (sep : jsstring) (fields : list jsstring) : jsstring :=
  match fields with
  | [] => []
  | [f] => f
  | f :: rest => f ++ sep ++ join sep rest
  end.

(** White space and line terminators removed by [trim()]. *)
Definition isWhiteSpace (c : N) : bool :=
  existsb (N.eqb c)
    [9; 10; 11; 12; 13; 32; 160; 5760; 8232; 8233; 8239; 8287; 12288; 65279]%N
  || ((8192 <=? c) && (c <=? 8202))%N.

Fixpoint trimStart (s : jsstring) : jsstring :=
  match s with
  | c :: s' => if isWhiteSpace c then trimStart s' else s
  | [] => []
  end.

Definition trimEnd (s : jsstring) : jsstring :=
  reverse (trimStart (reverse s)).

Definition trim (s : jsstring) : jsstring := trimEnd (trimStart s).

(** ** JavaScript numbers

    Binary64 arithmetic is the Standard Library's executable specification;
    every operation rounds to nearest, ties to even. *)

Abbreviation number := spec_float.

Definition prec : Z := 53.
Definition emax : Z := 1024.

Definition NaN : number := S754_nan.
Definition num_add : number → number → number := SFadd prec emax.
Definition num_sub : number → number → number := SFsub prec emax.
Definition num_mul : number → number → number := SFmul prec emax.
Definition num_div : number → number → number := SFdiv prec emax.
(** [x > y]; false when either side is NaN *)
Definition num_gt (x y : number) : bool := SFltb y x.
(** [x === y] on numbers *)
Definition num_eq (x y : number) : bool := SFeqb x y.

(** The number denoted by an integer literal. *)
Definition of_Z (z : Z) : number := binary_normalize prec emax z 0 false.

(** The number nearest to the positive rational [num / den], with the given
    sign; a zero numerator gives a signed zero. *)
Definition round_ratio (neg : bool) (num den : Z) : number :=
  if num =? 0 then S754_zero neg
  else
    let '(q, e, l) := SFdiv_core_binary prec emax num 0 den 0 in
    binary_round_aux prec emax neg q e l.

(** The number nearest to [digits * 10 ^ exp10].  Literals are rounded
    exactly, whatever their length, as engines do; ECMAScript would also
    allow an approximation past the twentieth significant digit. *)
Definition round_decimal (neg : bool) (digits exp10 : Z) : number :=
  if 0 <=? exp10
  then round_ratio neg (digits * 10 ^ exp10) 1
  else round_ratio neg digits (10 ^ (- exp10)).

(** *** Reading numbers from strings *)

Definition digitVal (radix : Z) (c : N) : option Z :=
  let c := Z.of_N c in
  let v := if (48 <=? c) && (c <=? 57) then c - 48
           else if (97 <=? c) && (c <=? 122) then c - 87
           else if (65 <=? c) && (c <=? 90) then c - 55
           else radix in
  if v <? radix then Some v else None.

(** The longest run of digits at the head of [s]: its value on top of
    [acc], the number of digits read on top of [n], and the rest. *)
Fixpoint takeDigits (radix : Z) (s : jsstring) (acc n : Z) : Z * Z * jsstring :=
  match s with
  | c :: s' =>
      match digitVal radix c with
      | Some d => takeDigits radix s' (acc * radix + d) (n + 1)
      | None => (acc, n, s)
      end
  | [] => (acc, n, [])
  end.

(** An optional sign: whether it is a minus, and the rest. *)
Definition takeSign (s : jsstring) : bool * jsstring :=
  match s with
  | 45%N :: s' => (true, s')
  | 43%N :: s' => (false, s')
  | _ => (false, s)
  end.

(** The exponent part [e±ddd], if a complete one is present. *)
Definition takeExponent (s : jsstring) : Z * jsstring :=
  match s with
  | c :: s' =>
      if (c =? 101)%N || (c =? 69)%N then
        let '(neg, s'') := takeSign s' in
        let '(e, n, rest) := takeDigits 10 s'' 0 0 in
        if n =? 0 then (0, s) else ((if neg then - e else e), rest)
      else (0, s)
  | [] => (0, s)
  end.

(** The longest prefix of [s] that is a [StrUnsignedDecimalLiteral], as its
    value and the rest; [None] when no prefix is one. *)
Definition strUnsignedDecimalLiteral (neg : bool) (s : jsstring)
  : option (number * jsstring) :=
  if startsWith (js "Infinity") s then Some (S754_infinity neg, drop 8 s)
  else
    let '(ip, ni, r1) := takeDigits 10 s 0 0 in
    let '(m, nf, r2) :=
      match r1 with
      | 46%N :: r =>
          let '(m, nf, r2) := takeDigits 10 r ip 0 in
          if (ni =? 0) && (nf =? 0) then (ip, 0, r1) else (m, nf, r2)
      | _ => (ip, 0, r1)
      end in
    if (ni =? 0) && (nf =? 0) then None
    else
      let '(e, r3) := takeExponent r2 in
      Some (round_decimal neg m (e - nf), r3).

Definition strDecimalLiteral (s : jsstring) : option (number * jsstring) :=
  let '(neg, s') := takeSign s in
  strUnsignedDecimalLiteral neg s'.

(** [parseFloat(s)] on a string *)
Definition parseFloat (s : jsstring) : number :=
  match strDecimalLiteral (trimStart s) with
  | Some (v, _) => v
  | None => NaN
  end.

(** [0x], [0o] and [0b] literals, which [ToNumber] accepts unsigned. *)
Definition nonDecimalIntegerLiteral (s : jsstring) : option number :=
  match s with
  | 48%N :: c :: s' =>
      let radix := if (c =? 120)%N || (c =? 88)%N then 16
                   else if (c =? 111)%N || (c =? 79)%N then 8
                   else if (c =? 98)%N || (c =? 66)%N then 2
                   else 0 in
      match takeDigits radix s' 0 0 with
      | (v, n, []) => if 0 <? n then Some (of_Z v) else None
      | _ => None
      end
  | _ => None
  end.

(** [ToNumber(s)] on a string, as applied by the [*] operator *)
Definition ToNumber (s : jsstring) : number :=
  let t := trim s in
  match t with
  | [] => S754_zero false
  | _ :: _ =>
      match strDecimalLiteral t with
      | Some (v, []) => v
      | _ =>
          match nonDecimalIntegerLiteral t with
          | Some v => v
          | None => NaN
          end
      end
  end.

(** [parseInt(s)] on a string, no radix given *)
Definition parseInt (s : jsstring) : number :=
  let '(neg, s1) := takeSign (trimStart s) in
  let '(radix, s2) :=
    match s1 with
    | 48%N :: c :: s' =>
        if (c =? 120)%N || (c =? 88)%N then (16, s') else (10, s1)
    | _ => (10, s1)
    end in
  let '(v, n, _) := takeDigits radix s2 0 0 in
  if n =? 0 then NaN
  else if v =? 0 then S754_zero neg
  else binary_normalize prec emax (if neg then - v else v) 0 false.

(** *** Writing numbers as strings *)

Fixpoint uint_digits (d : Decimal.uint) : jsstring :=
  match d with
  | Decimal.Nil => []
  | Decimal.D0 d => 48%N :: uint_digits d
  | Decimal.D1 d => 49%N :: uint_digits d
  | Decimal.D2 d => 50%N :: uint_digits d
  | Decimal.D3 d => 51%N :: uint_digits d
  | Decimal.D4 d => 52%N :: uint_digits d
  | Decimal.D5 d => 53%N :: uint_digits d
  | Decimal.D6 d => 54%N :: uint_digits d
  | Decimal.D7 d => 55%N :: uint_digits d
  | Decimal.D8 d => 56%N :: uint_digits d
  | Decimal.D9 d => 57%N :: uint_digits d
  end.

(** The decimal digits of a natural number; ["0"] for zero. *)
Definition digitsOf (z : Z) : jsstring := uint_digits (N.to_uint (Z.to_N z)).

Definition zeros (n : Z) : jsstring := replicate (Z.to_nat n) 48%N.

(** A positive finite number as an exact fraction. *)
Definition fraction_of (m : positive) (e : Z) : Z * Z :=
  if 0 <=? e then (Zpos m * 2 ^ e, 1) else (Zpos m, 2 ^ (- e)).

(** [floor (num / den / 10 ^ p)] *)
Definition scaled_floor (num den p : Z) : Z :=
  if 0 <=? p then num / (den * 10 ^ p) else (num * 10 ^ (- p)) / den.

(** How often [den] can be multiplied by ten without exceeding [num]. *)
Fixpoint log10_up (fuel : nat) (num den : Z) : Z :=
  match fuel with
  | O => 0
  | S f => if den * 10 <=? num then 1 + log10_up f num (den * 10) else 0
  end.

(** How often [num] must be multiplied by ten to reach [den]. *)
Fixpoint log10_down (fuel : nat) (num den : Z) : Z :=
  match fuel with
  | O => 1
  | S f => if den <=? num * 10 then 1 else 1 + log10_down f (num * 10) den
  end.

(** The [p] with [10 ^ p <= num / den < 10 ^ (p + 1)]. *)
Definition ilog10 (num den : Z) : Z :=
  if den <=? num
  then log10_up (S (Z.to_nat (Z.log2 num))) num den
  else - log10_down (S (Z.to_nat (Z.log2 den))) num den.

Definition same_number (x y : number) : bool :=
  match x, y with
  | S754_finite sx mx ex, S754_finite sy my ey =>
      Bool.eqb sx sy && (mx =? my)%positive && (ex =? ey)
  | _, _ => false
  end.

(** The shortest decimal [s * 10 ^ q] that reads back as [x = num / den],
    trying [k], [k + 1], ... significant digits; of two that do, the one
    nearer to [x], and the even one on a tie. *)
Fixpoint shortest (fuel : nat) (x : number) (num den p k : Z) : Z * Z :=
  let q := p - (k - 1) in
  let lo := scaled_floor num den q in
  let hi := lo + 1 in
  match fuel with
  | O => (lo, q)
  | S f =>
      let okLo := same_number (round_decimal false lo q) x in
      let okHi := same_number (round_decimal false hi q) x in
      if okLo && okHi then
        let mid := 2 * lo + 1 in
        let c := if 0 <=? q
                 then 2 * num ?= mid * 10 ^ q * den
                 else 2 * num * 10 ^ (- q) ?= mid * den in
        match c with
        | Lt => (lo, q)
        | Gt => (hi, q)
        | Eq => (if Z.even lo then lo else hi, q)
        end
      else if okLo then (lo, q)
      else if okHi then (hi, q)
      else shortest f x num den p (k + 1)
  end.

(** Dropping the trailing zeros of [s], counting them into the exponent. *)
Fixpoint strip_zeros (fuel : nat) (s q : Z) : Z * Z :=
  match fuel with
  | O => (s, q)
  | S f => if (s mod 10 =? 0) && (0 <? s) then strip_zeros f (s / 10) (q + 1)
           else (s, q)
  end.

(** [Number::toString(x)] for a positive finite [x = m * 2 ^ e] *)
Definition toString_pos (m : positive) (e : Z) : jsstring :=
  let '(num, den) := fraction_of m e in
  let '(s0, q0) :=
    shortest 17 (S754_finite false m e) num den (ilog10 num den) 1 in
  let '(s, q) := strip_zeros 17 s0 q0 in
  let ds := digitsOf s in
  let k := Z.of_nat (length ds) in
  let n := q + k in
  if (k <=? n) && (n <=? 21) then ds ++ zeros (n - k)
  else if (0 <? n) && (n <=? 21) then
    take (Z.to_nat n) ds ++ [46%N] ++ drop (Z.to_nat n) ds
  else if (-6 <? n) && (n <=? 0) then js "0." ++ zeros (- n) ++ ds
  else
    let ex := n - 1 in
    let tail := [101%N] ++ [if ex <? 0 then 45%N else 43%N] ++ digitsOf (Z.abs ex) in
    if k =? 1 then ds ++ tail
    else take 1 ds ++ [46%N] ++ drop 1 ds ++ tail.

(** [String(x)], as used by template literals and by [parseInt] and
    [parseFloat] when they are handed a number *)
Definition ToString (x : number) : jsstring :=
  match x with
  | S754_nan => js "NaN"
  | S754_zero _ => js "0"
  | S754_infinity neg => (if neg then js "-" else []) ++ js "Infinity"
  | S754_finite neg m e => (if neg then js "-" else []) ++ toString_pos m e
  end.

(** The integer nearest to [100 * x] for a finite [x >= 0], the larger one
    on a tie: the [n] of [Number.prototype.toFixed] for two digits. *)
Definition nearest_hundredth (num den : Z) : Z :=
  (2 * 100 * num + den) / (2 * den).

(** [x.toFixed(2)] *)
Definition toFixed2 (x : number) : jsstring :=
  match x with
  | S754_finite neg m e =>
      let '(num, den) := fraction_of m e in
      (if neg then js "-" else []) ++
      (if 10 ^ 21 * den <=? num then toString_pos m e
       else
         let ds := digitsOf (nearest_hundredth num den) in
         let k := Z.of_nat (length ds) in
         let ds := if k <=? 2 then zeros (3 - k) ++ ds else ds in
         let k := Z.of_nat (length ds) in
         take (Z.to_nat (k - 2)) ds ++ [46%N] ++ drop (Z.to_nat (k - 2)) ds)
  | S754_zero _ => js "0.00"
  | _ => ToString x
  end.

(** ** Results of code that may throw *)

Inductive error := TypeError | IOError.

Inductive result (A : Type) :=
| Ok (a : A)
| Throw (e : error).
Arguments Ok {A} a.
Arguments Throw {A} e.

#[global] Instance result_ret : MRet result := @Ok.

#[global] Instance result_bind : MBind result :=
  λ A B (k : A → result B) (r : result A),
    match r with
    | Ok a => k a
    | Throw e => Throw e
    end.

(** [arr.map(f)] with a callback that may throw: the first exception, in
    index order, ends the traversal. *)
Fixpoint mapR {A B} (f : A → result B) (l : list A) : result (list B) :=
  match l with
  | [] => Ok []
  | a :: l' => b ← f a; bs ← mapR f l'; Ok (b :: bs)
  end.

(** ** The CSV codec *)

Abbreviation row := (list jsstring).

Definition convertCSVStrToArr (csvStr : jsstring) : list row :=
  let lines := split crlf csvStr in
  split comma <$> lines.

(** The loop of [convertArrayToCSVStr]: [csvStr] and the running [index]. *)
Definition convertArrayToCSVStr (dataArr : list row) : jsstring :=
  fst (fold_left
         (λ '(csvStr, index) csvLine,
            let csvStr := csvStr ++ join comma csvLine in
            ((if index =? Z.of_nat (length dataArr) - 1
              then csvStr else csvStr ++ crlf),
             index + 1))
         dataArr ([], 0)).

(** ** Constants of the program *)

Definition BASE_COMMISSION : number := of_Z 125.
Definition BONUS_AMOUNT : number := of_Z 10.

Definition BONUS_TYPE_1 : number := of_Z 1.
Definition BONUS_TYPE_2 : number := of_Z 2.

Definition THRESHOLD_AMOUNT_1 : number := of_Z 100000.
Definition THRESHOLD_AMOUNT_2 : number := of_Z 250000.

Definition TARGET_AMOUNT_1 : number := of_Z 10000.
Definition TARGET_AMOUNT_2 : number := of_Z 50000.

(** [{ $: 0.8 }].  A lookup object is read only at keys of at most one
    code unit, none of which names a property inherited from
    [Object.prototype], so a finite map of own properties models it. *)
Definition CURRENCY_LOOKUP : gmap jsstring number :=
  {[ js "$" := round_decimal false 8 (-1) ]}.

(** The header row of a case file. *)
Definition caseHeader : row := [js "BrokerName"; js "CaseId"; js "CaseValue"].

(** ** The currency normaliser *)

(** The callback of [convertCasesToGBP].  Destructuring a row of fewer than
    three fields leaves [CaseValue] undefined, and [CaseValue.startsWith]
    then throws; an absent conversion rate is [undefined], which [*] turns
    into NaN. *)
Definition convertCase (conversionLookup : gmap jsstring number) (_case : row)
  : result row :=
  match _case with
  | BrokerName :: CaseId :: CaseValue :: _ =>
      if startsWith [pound] CaseValue then Ok _case
      else
        let conversionRate :=
          default NaN (conversionLookup !! take 1 CaseValue) in
        let gbpVal :=
          toFixed2
            (parseFloat
               (ToString (num_mul (ToNumber (drop 1 CaseValue)) conversionRate))) in
        Ok [BrokerName; CaseId; pound :: gbpVal]
  | _ => Throw TypeError
  end.

(** The header is [brokerCases[0]], which is [undefined] ([None]) for an
    empty array. *)
Definition convertCasesToGBP (brokerCases : list row)
    (conversionLookup : gmap jsstring number) : result (list (option row)) :=
  let header := brokerCases !! 0%nat in
  converted ← mapR (convertCase conversionLookup) (drop 1 brokerCases);
  Ok (header :: (Some <$> converted)).

(** ** The commission calculator *)

Definition bonusCalculator (caseValue : jsstring) (threshold target : number)
  : number :=
  let caseValueAsFloat := parseFloat (drop 1 caseValue) in
  let totalBonus := S754_zero false in
  if num_gt caseValueAsFloat threshold
  then num_mul
         (parseInt (ToString (num_div (num_sub caseValueAsFloat threshold) target)))
         BONUS_AMOUNT
  else totalBonus.

(** ** The report generators *)

(** Truthiness of an optional number argument: [undefined], zeros and NaN
    are falsy. *)
Definition truthy (v : option number) : bool :=
  match v with
  | Some (S754_finite _ _ _) | Some (S754_infinity _) => true
  | _ => false
  end.

(** [v === BONUS_TYPE_2] *)
Definition is_BONUS_TYPE_2 (v : option number) : bool :=
  match v with
  | Some x => num_eq x BONUS_TYPE_2
  | None => false
  end.

(** The callback of [getCommissionData] on a normalised case.  The rows it
    receives come out of [convertCasesToGBP] and so are defined and have
    three fields (lemma [convertCase_fields]); the other branches stand
    for the destructuring of anything else. *)
Definition commissionRow (bonusCalculation : option number)
    (brokerCase : option row) : result row :=
  match brokerCase with
  | Some (BrokerName :: CaseId :: CaseValue :: _) =>
      let commissionObj :=
        [BrokerName; CaseId; pound :: ToString BASE_COMMISSION] in
      if truthy bonusCalculation then
        let bonus :=
          bonusCalculator CaseValue THRESHOLD_AMOUNT_1 TARGET_AMOUNT_1 in
        let bonus :=
          if is_BONUS_TYPE_2 bonusCalculation
          then num_add bonus
                 (bonusCalculator CaseValue THRESHOLD_AMOUNT_2 TARGET_AMOUNT_2)
          else bonus in
        Ok (commissionObj ++ [pound :: ToString bonus])
      else Ok commissionObj
  | _ => Throw TypeError
  end.

Definition commissionHeader : row :=
  [js "BrokerName"; js "CaseId"; js "BaseCommission"; js "BonusCommission"].

(** [bonusCalculation] is [None] when the argument is left out, as it is
    when the function itself is passed as a data generator. *)
Definition getCommissionData (brokerCases : list row)
    (bonusCalculation : option number) : result (list row) :=
  gBPBrokerCases ← convertCasesToGBP brokerCases CURRENCY_LOOKUP;
  commisionArr ← mapR (commissionRow bonusCalculation) (drop 1 gBPBrokerCases);
  Ok (commissionHeader :: commisionArr).

(** *** The lookup object of the summary

    [summaryObj] starts as [{}]: an ordinary object whose prototype is
    [Object.prototype].  Its own properties are kept in creation order. *)

Abbreviation jsobject := (list (jsstring * number)).

Fixpoint getOwn (key : jsstring) (o : jsobject) : option number :=
  match o with
  | [] => None
  | (k, v) :: o' => if decide (k = key) then Some v else getOwn key o'
  end.

Fixpoint putOwn (key : jsstring) (v : number) (o : jsobject) : jsobject :=
  match o with
  | [] => [(key, v)]
  | (k, w) :: o' =>
      if decide (k = key) then (k, v) :: o' else (k, w) :: putOwn key v o'
  end.

(** [o[key] = v] for a number [v]: [__proto__] is an accessor inherited
    from [Object.prototype] whose setter ignores values that are not
    objects; every other key becomes, or stays, an own property. *)
Definition assign (key : jsstring) (v : number) (o : jsobject) : jsobject :=
  if decide (key = js "__proto__") then o else putOwn key v o.

(** An array index is the canonical decimal form of an integer below
    [2 ^ 32 - 1]. *)
Definition arrayIndex (key : jsstring) : option Z :=
  match takeDigits 10 key 0 0 with
  | (v, n, []) =>
      if (0 <? n) && (v <=? 4294967294) && bool_decide (digitsOf v = key)
      then Some v else None
  | _ => None
  end.

Fixpoint insertIndex (k : Z * jsstring) (l : list (Z * jsstring))
  : list (Z * jsstring) :=
  match l with
  | [] => [k]
  | k' :: l' => if k.1 <=? k'.1 then k :: l else k' :: insertIndex k l'
  end.

(** [Object.keys(o)]: array indices in ascending numeric order, then the
    other keys in creation order. *)
Definition ownKeys (created : list jsstring) : list jsstring :=
  let indices :=
    foldr insertIndex []
      (omap (λ k, (λ i, (i, k)) <$> arrayIndex k) created) in
  (snd <$> indices) ++ filter (λ k, arrayIndex k = None) created.

(** One iteration of the loop of [getCommissionSummaryData].  The call
    [summaryObj.hasOwnProperty(...)] finds the inherited method unless a
    broker of that name has put a number in its way, which is not
    callable; a row of fewer than four fields leaves [BonusCommission]
    undefined, and [BonusCommission.substring] then throws. *)
Definition summaryStep (summaryObj : jsobject) (brokerCase : row)
  : result jsobject :=
  match getOwn (js "hasOwnProperty") summaryObj with
  | Some _ => Throw TypeError
  | None =>
      match brokerCase with
      | BrokerName :: CaseId :: BaseCommission :: BonusCommission :: _ =>
          let currentTotal :=
            default (S754_zero false) (getOwn BrokerName summaryObj) in
          Ok (assign BrokerName
                (num_add
                   (num_add currentTotal (parseFloat (drop 1 BaseCommission)))
                   (parseFloat (drop 1 BonusCommission)))
                summaryObj)
      | _ => Throw TypeError
      end
  end.

Fixpoint summaryLoop (summaryObj : jsobject) (brokerCases : list row)
  : result jsobject :=
  match brokerCases with
  | [] => Ok summaryObj
  | brokerCase :: rest =>
      summaryObj' ← summaryStep summaryObj brokerCase;
      summaryLoop summaryObj' rest
  end.

Definition summaryHeader : row := [js "BrokerName"; js "TotalCommission"].

Definition summaryRow (summaryObj : jsobject) (key : jsstring) : row :=
  [key; pound :: ToString (default NaN (getOwn key summaryObj))].

Definition getCommissionSummaryData (brokerCases : list row)
  : result (list row) :=
  summaryObj ← summaryLoop [] (drop 1 brokerCases);
  Ok (summaryHeader :: (summaryRow summaryObj <$> ownKeys summaryObj.*1)).

(** ** The orchestrator *)

Definition getCaseCommissionData (csvStr : jsstring)
    (dataGenerator : list row → result (list row)) : result jsstring :=
  let csvArr := convertCSVStrToArr csvStr in
  commissionData ← dataGenerator csvArr;
  Ok (convertArrayToCSVStr commissionData).

(** The file system, as far as the program meets it: the text, already
    decoded, of the files that can be read, and the names that can be
    written.  [fs.readFileSync] throws on a name it cannot read and
    [fs.writeFileSync] on one it cannot write; a write replaces the text
    of the file. *)
Record filesystem := {
  fs_files : gmap jsstring jsstring;
  fs_writable : jsstring → bool
}.

Definition readFileSync (name : jsstring) (fs : filesystem) : result jsstring :=
  match fs_files fs !! name with
  | Some text => Ok text
  | None => Throw IOError
  end.

(** The file system after [text] has been written under [name]. *)
Definition written (name text : jsstring) (fs : filesystem) : filesystem :=
  {| fs_files := <[name := text]> (fs_files fs);
     fs_writable := fs_writable fs |}.

Definition writeFileSync (name text : jsstring) (fs : filesystem)
  : result filesystem :=
  if fs_writable fs name then Ok (written name text fs) else Throw IOError.

Definition createCommissionCSV (inputFileName outputFileName : jsstring)
    (dataGenerator : list row → result (list row))
    (fs : filesystem) : result filesystem :=
  csvStr ← readFileSync inputFileName fs;
  let csvStr := trim csvStr in
  csvStr ← getCaseCommissionData csvStr dataGenerator;
  writeFileSync outputFileName csvStr fs.

(** ** The summary as the specification words it

    These follow the specification, to be compared with what
    [getCommissionSummaryData] computes. *)

(** The broker a commission row belongs to. *)
Definition brokerOf (r : row) : jsstring := default [] (r !! 0%nat).

(** The distinct names of a list, each at its first occurrence. *)
Fixpoint firstSeen (names : list jsstring) : list jsstring :=
  match names with
  | [] => []
  | n :: rest => n :: filter (λ m, m ≠ n) (firstSeen rest)
  end.

(** A running total with one more row's base and bonus commission added. *)
Definition rowTotal (total : number) (r : row) : number :=
  match r with
  | _ :: _ :: BaseCommission :: BonusCommission :: _ =>
      num_add (num_add total (parseFloat (drop 1 BaseCommission)))
        (parseFloat (drop 1 BonusCommission))
  | _ => total
  end.

(** The rows of one broker, added up in row order. *)
Definition totalFrom (start : number) (name : jsstring) (rows : list row)
  : number :=
  foldl rowTotal start (filter (λ r, brokerOf r = name) rows).

Definition brokerTotal (name : jsstring) (rows : list row) : number :=
  totalFrom (S754_zero false) name rows.

(** ** Texts with and without white space around them *)

(** A text of white space and line terminators only. *)
Definition blank (s : jsstring) : Prop :=
  Forall (λ c, isWhiteSpace c = true) s.

(** A text that neither starts nor ends with white space or a line
    terminator. *)
Definition trimmed (s : jsstring) : Prop :=
  (∀ c, head s = Some c → isWhiteSpace c = false) ∧
  (∀ c, last s = Some c → isWhiteSpace c = false).

(** ** Fields that survive the codec *)

(** A field that holds neither a comma nor a line break. *)
Definition csvField (f : jsstring) : Prop :=
  (44%N ∉ f) ∧ (∀ i, startsWith crlf (drop i f) = false).

(* ===================================================================== *)
(** * Part II: properties                                                 *)
(* ===================================================================== *)

Section Codec.

Lemma split_from_nonempty sep k s : split_from sep k s ≠ [].
Proof.
  revert k; induction s as [|c s IH]; intros k; simpl; [done|].
  destruct k; [|apply IH].
  destruct (startsWith sep (c :: s)); [done|].
  destruct (split_from sep 0 s); done.
Qed.

Lemma startsWith_app p s : startsWith p s = true → s = p ++ drop (length p) s.
Proof.
  revert s; induction p as [|a p IH]; intros [|b s]; simpl; try done.
  intros [Hab Hp]%andb_prop. apply N.eqb_eq in Hab as ->.
  f_equal. by apply IH.
Qed.

Lemma startsWith_drop p s n :
  startsWith p s = true → startsWith (drop n p) (drop n s) = true.
Proof.
  revert p s; induction n as [|n IH]; intros p s; [done|].
  destruct p as [|a p], s as [|b s]; simpl; try done.
  intros [_ Hp]%andb_prop. by apply IH.
Qed.

Lemma join_cons sep f rest :
  rest ≠ [] → join sep (f :: rest) = f ++ sep ++ join sep rest.
Proof. by destruct rest. Qed.

(** Joining what [split_from] produced gives back what it consumed: the
    text itself, less the part of a separator that was still to be
    skipped. *)
Lemma join_split_from sep s k :
  sep ≠ [] →
  (k ≤ length sep)%nat →
  startsWith (drop (length sep - k) sep) s = true →
  join sep (split_from sep k s) = drop k s.
Proof.
  intros Hsep.
  assert (length sep ≠ 0)%nat by (by destruct sep).
  revert k; induction s as [|c s IH]; intros k Hk Hpre.
  - destruct k; [done|].
    assert (length (drop (length sep - S k) sep) ≠ 0)%nat
      by (rewrite length_drop; lia).
    by destruct (drop (length sep - S k) sep).
  - destruct k as [|k]; simpl.
    + destruct (startsWith sep (c :: s)) eqn:Hm.
      * rewrite join_cons by apply split_from_nonempty.
        rewrite IH; [| lia |].
        -- simpl. rewrite (startsWith_app _ _ Hm) at 1.
           destruct (length sep) as [|n] eqn:Hn; [done|].
           simpl. by rewrite Nat.sub_0_r.
        -- replace (length sep - (length sep - 1))%nat with 1%nat by lia.
           by apply (startsWith_drop _ _ 1) in Hm.
      * specialize (IH 0%nat). rewrite Nat.sub_0_r, drop_all in IH.
        pose proof (split_from_nonempty sep 0 s).
        destruct (split_from sep 0 s) as [|f fs] eqn:Hs; [done|].
        assert (join sep ((c :: f) :: fs) = c :: join sep (f :: fs)) as ->
          by (by destruct fs).
        f_equal. apply IH; [lia|done].
    + apply IH; [lia|].
      apply (startsWith_drop _ _ 1) in Hpre. simpl in Hpre.
      rewrite drop_drop in Hpre.
      by replace (length sep - k)%nat with (length sep - S k + 1)%nat by lia.
Qed.

Lemma join_split sep s : sep ≠ [] → join sep (split sep s) = s.
Proof.
  intros Hsep. destruct sep as [|a sep]; [done|]. unfold split.
  rewrite join_split_from; [done|done|lia|].
  by rewrite Nat.sub_0_r, drop_all.
Qed.

Lemma csv_loop_join (n : Z) (l : list row) (acc : jsstring) (i : Z) :
  i + Z.of_nat (length l) = n →
  fst (fold_left
         (λ '(csvStr, index) csvLine,
            let csvStr := csvStr ++ join comma csvLine in
            ((if index =? n - 1 then csvStr else csvStr ++ crlf), index + 1))
         l (acc, i))
  = acc ++ join crlf (join comma <$> l).
Proof.
  revert acc i; induction l as [|r l IH]; intros acc i Hn; simpl.
  - by rewrite app_nil_r.
  - rewrite IH by (simpl in Hn; lia).
    destruct l as [|r' l]; simpl in *.
    + rewrite app_nil_r. by replace (i =? n - 1) with true by lia.
    + replace (i =? n - 1) with false by lia.
      by rewrite <- !app_assoc.
Qed.

Lemma convertArrayToCSVStr_join (dataArr : list row) :
  convertArrayToCSVStr dataArr = join crlf (join comma <$> dataArr).
Proof. unfold convertArrayToCSVStr. by rewrite csv_loop_join. Qed.

(** C4. Serialising the parse of a text gives the text back, for every text
    (so in particular for every CRLF-delimited text without embedded commas
    or line breaks); nothing is appended after the last row. *)
Theorem csv_roundtrip (T : jsstring) :
  convertArrayToCSVStr (convertCSVStrToArr T) = T.
Proof.
  rewrite convertArrayToCSVStr_join. unfold convertCSVStrToArr.
  rewrite <- list_fmap_compose.
  rewrite (list_fmap_ext _ id (split crlf T)), list_fmap_id.
  - by apply join_split.
  - intros i f _. by apply (join_split comma).
Qed.

End Codec.

(** The primitives of the language are kept folded in goals. *)
#[global] Arguments startsWith : simpl never.
#[global] Arguments parseFloat : simpl never.
#[global] Arguments parseInt : simpl never.
#[global] Arguments ToNumber : simpl never.
#[global] Arguments ToString : simpl never.
#[global] Arguments toFixed2 : simpl never.
#[global] Arguments num_add : simpl never.
#[global] Arguments num_sub : simpl never.
#[global] Arguments num_mul : simpl never.
#[global] Arguments num_div : simpl never.
#[global] Arguments num_gt : simpl never.
#[global] Arguments num_eq : simpl never.
#[global] Arguments of_Z : simpl never.
#[global] Arguments js : simpl never.

(** ** Traversals that may throw *)

Section MapR.
Context {A B : Type} (f : A → result B).

Lemma mapR_lookup (l : list A) (out : list B) (i : nat) (a : A) :
  mapR f l = Ok out → l !! i = Some a →
  ∃ b, f a = Ok b ∧ out !! i = Some b.
Proof.
  revert out i; induction l as [|x l IH]; intros out i Hm Hi; [done|].
  simpl in Hm. destruct (f x) as [b|] eqn:Hx; [|done]. simpl in Hm.
  destruct (mapR f l) as [bs|] eqn:Hl; [|done]. simpl in Hm.
  injection Hm as <-. destruct i as [|i]; simpl in *.
  - injection Hi as <-. eauto.
  - by apply IH.
Qed.

Lemma mapR_length (l : list A) (out : list B) :
  mapR f l = Ok out → length out = length l.
Proof.
  revert out; induction l as [|x l IH]; intros out Hm; simpl in Hm.
  - by injection Hm as <-.
  - destruct (f x) as [b|]; [|done]. simpl in Hm.
    destruct (mapR f l) as [bs|]; [|done]. simpl in Hm.
    injection Hm as <-. simpl. f_equal. by apply IH.
Qed.

Lemma mapR_total (l : list A) :
  Forall (λ a, ∃ b, f a = Ok b) l → ∃ out, mapR f l = Ok out.
Proof.
  induction 1 as [|x l [b Hb] _ [bs Hbs]]; simpl; [eauto|].
  rewrite Hb. simpl. rewrite Hbs. simpl. eauto.
Qed.

Lemma mapR_Forall2 (l : list A) (out : list B) :
  mapR f l = Ok out → Forall2 (λ a b, f a = Ok b) l out.
Proof.
  revert out; induction l as [|x l IH]; intros out Hm; simpl in Hm.
  - injection Hm as <-. constructor.
  - destruct (f x) as [b|] eqn:Hx; [|done]. simpl in Hm.
    destruct (mapR f l) as [bs|]; [|done]. simpl in Hm.
    injection Hm as <-. constructor; [done|by apply IH].
Qed.

End MapR.

(** ** The currency normaliser *)

Lemma convertCase_total lookup (r : row) :
  (3 ≤ length r)%nat → ∃ r', convertCase lookup r = Ok r'.
Proof.
  destruct r as [|b [|c [|v rest]]]; simpl; try lia. intros _.
  destruct (startsWith [pound] v); eexists; reflexivity.
Qed.

Lemma convertCase_fields lookup (r r' : row) :
  convertCase lookup r = Ok r' → (3 ≤ length r')%nat.
Proof.
  destruct r as [|b [|c [|v rest]]]; simpl; try done.
  destruct (startsWith [pound] v); intros [= <-]; simpl; lia.
Qed.

Lemma convertCasesToGBP_total lookup (brokerCases : list row) :
  Forall (λ r : row, (3 ≤ length r)%nat) (drop 1 brokerCases) →
  ∃ converted,
    mapR (convertCase lookup) (drop 1 brokerCases) = Ok converted ∧
    convertCasesToGBP brokerCases lookup
    = Ok (brokerCases !! 0%nat :: (Some <$> converted)).
Proof.
  intros Hall. unfold convertCasesToGBP.
  destruct (mapR_total (convertCase lookup) (drop 1 brokerCases)) as [cv Hcv].
  - eapply Forall_impl; [exact Hall|]. intros r. apply convertCase_total.
  - exists cv. by rewrite Hcv.
Qed.

Lemma convertCasesToGBP_lookup lookup (brokerCases : list row) out i (r : row) :
  convertCasesToGBP brokerCases lookup = Ok out →
  brokerCases !! S i = Some r →
  ∃ r', convertCase lookup r = Ok r' ∧ out !! S i = Some (Some r').
Proof.
  unfold convertCasesToGBP. intros Hout Hr.
  destruct (mapR (convertCase lookup) (drop 1 brokerCases)) as [cv|] eqn:Hcv;
    [|done].
  simpl in Hout. injection Hout as <-.
  destruct (mapR_lookup _ _ _ i r Hcv) as (r' & Hr' & Hi).
  - by rewrite lookup_drop.
  - exists r'. split; [done|]. simpl. by rewrite list_lookup_fmap, Hi.
Qed.

Lemma convertCasesToGBP_inv lookup (brokerCases : list row) gbp :
  convertCasesToGBP brokerCases lookup = Ok gbp →
  ∃ converted,
    gbp = brokerCases !! 0%nat :: (Some <$> converted) ∧
    Forall2 (λ r r', convertCase lookup r = Ok r') (drop 1 brokerCases) converted.
Proof.
  unfold convertCasesToGBP. intros Hout.
  destruct (mapR (convertCase lookup) (drop 1 brokerCases)) as [cv|] eqn:Hcv;
    [|done].
  simpl in Hout. injection Hout as <-.
  exists cv. split; [done|]. by apply mapR_Forall2.
Qed.

Lemma convertCase_keeps_ids lookup (r r' : row) :
  convertCase lookup r = Ok r' →
  r' !! 0%nat = r !! 0%nat ∧ r' !! 1%nat = r !! 1%nat.
Proof.
  destruct r as [|b [|c [|v rest]]]; simpl; try done.
  by destruct (startsWith [pound] v); intros [= <-].
Qed.

(** ** The per-case report *)

Lemma commissionRow_total sel (r : row) :
  (3 ≤ length r)%nat → ∃ o, commissionRow sel (Some r) = Ok o.
Proof.
  destruct r as [|b [|c [|v rest]]]; simpl; try lia. intros _.
  destruct (truthy sel); eexists; reflexivity.
Qed.

Lemma commissionRow_keeps_ids sel (r o : row) :
  commissionRow sel (Some r) = Ok o →
  o !! 0%nat = r !! 0%nat ∧ o !! 1%nat = r !! 1%nat.
Proof.
  destruct r as [|b [|c [|v rest]]]; simpl; try done.
  by destruct (truthy sel); intros [= <-].
Qed.

(** The report of a run that normalised its cases to [gbp]. *)
Lemma getCommissionData_of_gbp (brokerCases : list row) sel gbp :
  convertCasesToGBP brokerCases CURRENCY_LOOKUP = Ok gbp →
  ∃ out,
    getCommissionData brokerCases sel = Ok (commissionHeader :: out) ∧
    Forall2 (λ g o, commissionRow sel g = Ok o) (drop 1 gbp) out.
Proof.
  intros Hgbp. unfold getCommissionData. rewrite Hgbp. simpl.
  destruct (convertCasesToGBP_inv _ _ _ Hgbp) as (cv & -> & Hcv).
  destruct (mapR_total (commissionRow sel) (drop 1 (brokerCases !! 0%nat
                                                    :: (Some <$> cv))))
    as [out Hout].
  - simpl. rewrite drop_0. apply Forall_fmap.
    apply list.Forall_forall. intros r' Hin.
    apply list_elem_of_lookup in Hin as [i Hi].
    destruct (Forall2_lookup_r _ _ _ _ _ Hcv Hi) as (r & _ & Hr).
    apply commissionRow_total. by eapply convertCase_fields.
  - exists out. rewrite Hout. split; [done|]. by apply mapR_Forall2.
Qed.

(** C9. For a case CSV whose data rows have their three fields, the
    per-case report is the header followed by exactly one row per input
    data row, in input order, and row [i] of the report carries the broker
    name and case id of input row [i]. *)
Theorem per_case_report_rows (brokerCases : list row) sel :
  Forall (λ r : row, (3 ≤ length r)%nat) (drop 1 brokerCases) →
  ∃ out,
    getCommissionData brokerCases sel = Ok (commissionHeader :: out) ∧
    length out = length (drop 1 brokerCases) ∧
    ∀ i (r : row), drop 1 brokerCases !! i = Some r →
      ∃ o : row, out !! i = Some o ∧
        o !! 0%nat = r !! 0%nat ∧ o !! 1%nat = r !! 1%nat.
Proof.
  intros Hall.
  destruct (convertCasesToGBP_total CURRENCY_LOOKUP _ Hall) as (cv & _ & Hgbp).
  destruct (convertCasesToGBP_inv _ _ _ Hgbp) as (cv' & [= <-%(inj (fmap Some))] & Hcv).
  destruct (getCommissionData_of_gbp _ sel _ Hgbp) as (out & Hout & Hrows).
  simpl in Hrows. rewrite drop_0 in Hrows.
  exists out. split; [done|]. split.
  - rewrite <- (Forall2_length _ _ _ Hrows), length_fmap.
    symmetry. by eapply Forall2_length.
  - intros i r Hi.
    destruct (Forall2_lookup_l _ _ _ _ _ Hcv Hi) as (r' & Hr' & Hconv).
    destruct (Forall2_lookup_l _ (Some <$> cv) out i (Some r') Hrows)
      as (o & Ho & Hrow); [by rewrite list_lookup_fmap, Hr'|].
    exists o. split; [done|].
    destruct (convertCase_keeps_ids _ _ _ Hconv) as [<- <-].
    by apply commissionRow_keeps_ids in Hrow.
Qed.

Lemma per_case_report_rows_witness :
  Forall (λ r : row, (3 ≤ length r)%nat)
    (drop 1 [caseHeader; [js "Alice"; js "1"; pound :: js "310000.00"];
             [js "Bob"; js "2"; js "$100.00"]]) ∧
  ∃ out,
    getCommissionData
      [caseHeader; [js "Alice"; js "1"; pound :: js "310000.00"];
       [js "Bob"; js "2"; js "$100.00"]] (Some BONUS_TYPE_1)
    = Ok (commissionHeader :: out) ∧
    length out
    = length (drop 1 [caseHeader; [js "Alice"; js "1"; pound :: js "310000.00"];
                      [js "Bob"; js "2"; js "$100.00"]]) ∧
    ∀ i (r : row),
      drop 1 [caseHeader; [js "Alice"; js "1"; pound :: js "310000.00"];
              [js "Bob"; js "2"; js "$100.00"]] !! i = Some r →
      ∃ o : row, out !! i = Some o ∧
        o !! 0%nat = r !! 0%nat ∧ o !! 1%nat = r !! 1%nat.
Proof.
  assert (Forall (λ r : row, (3 ≤ length r)%nat)
    (drop 1 [caseHeader; [js "Alice"; js "1"; pound :: js "310000.00"];
             [js "Bob"; js "2"; js "$100.00"]])) as H
    by (repeat constructor).
  split; [exact H|]. exact (per_case_report_rows _ _ H).
Defined.

(** ** What the normaliser does to a row *)




Lemma num_mul_NaN (x : number) : num_mul x NaN = NaN.
Proof. by destruct x. Qed.

(** C7. A data row whose case value does not start with the pound sign and
    whose first character has no entry in the lookup table does not stop
    the run: when every data row has its three fields the normaliser
    returns, that row is emitted with the value [£NaN], and every row is
    emitted as the normaliser's callback maps it. *)
Theorem unknown_symbol_row lookup (brokerCases : list row) i b c v rest :
  Forall (λ r : row, (3 ≤ length r)%nat) (drop 1 brokerCases) →
  brokerCases !! S i = Some (b :: c :: v :: rest) →
  startsWith [pound] v = false →
  lookup !! take 1 v = None →
  ∃ gbp,
    convertCasesToGBP brokerCases lookup = Ok gbp ∧
    length gbp = S (length (drop 1 brokerCases)) ∧
    gbp !! S i = Some (Some [b; c; pound :: js "NaN"]) ∧
    ∀ j (r : row), brokerCases !! S j = Some r →
      ∃ r', convertCase lookup r = Ok r' ∧ gbp !! S j = Some (Some r').
Proof.
  intros Hall Hrow Hpound Hsym.
  destruct (convertCasesToGBP_total lookup _ Hall) as (cv & Hcv & Hgbp).
  eexists. split; [exact Hgbp|]. split; [|split].
  - simpl. by rewrite length_fmap, (mapR_length _ _ _ Hcv).
  - destruct (convertCasesToGBP_lookup _ _ _ _ _ Hgbp Hrow) as (r' & Hr' & ->).
    simpl in Hr'. rewrite Hpound, Hsym in Hr'. simpl in Hr'.
    rewrite num_mul_NaN in Hr'. by injection Hr' as <-.
  - intros j r Hj. by eapply convertCasesToGBP_lookup.
Qed.

Lemma unknown_symbol_row_witness :
  ∃ gbp,
    convertCasesToGBP
      [caseHeader; [js "Alice"; js "1"; js "E100.00"];
       [js "Bob"; js "2"; js "$100.00"]] CURRENCY_LOOKUP = Ok gbp ∧
    gbp !! 1%nat = Some (Some [js "Alice"; js "1"; pound :: js "NaN"]) ∧
    gbp !! 2%nat = Some (Some [js "Bob"; js "2"; pound :: js "80.00"]).
Proof.
  destruct (unknown_symbol_row CURRENCY_LOOKUP
              [caseHeader; [js "Alice"; js "1"; js "E100.00"];
               [js "Bob"; js "2"; js "$100.00"]]
              0%nat (js "Alice") (js "1") (js "E100.00") [])
    as (gbp & Hgbp & _ & H1 & Hall).
  - repeat constructor.
  - reflexivity.
  - reflexivity.
  - by vm_compute.
  - exists gbp. split; [exact Hgbp|]. split; [exact H1|].
    destruct (Hall 1%nat [js "Bob"; js "2"; js "$100.00"] eq_refl)
      as (r' & Hr' & Hl).
    rewrite Hl. vm_compute in Hr'. by injection Hr' as <-.
Defined.

(** ** The bonus *)

(** At or below the threshold, and for a value that is not a number, the
    bonus is zero. *)
Lemma bonusCalculator_not_above (caseValue : jsstring) threshold target :
  num_gt (parseFloat (drop 1 caseValue)) threshold = false →
  bonusCalculator caseValue threshold target = S754_zero false.
Proof. unfold bonusCalculator. by intros ->. Qed.

(** Above the threshold, the bonus is what [parseInt] reads at the head of
    the quotient's decimal form, times ten. *)
Lemma bonusCalculator_above (caseValue : jsstring) threshold target :
  num_gt (parseFloat (drop 1 caseValue)) threshold = true →
  bonusCalculator caseValue threshold target
  = num_mul
      (parseInt
         (ToString
            (num_div (num_sub (parseFloat (drop 1 caseValue)) threshold) target)))
      BONUS_AMOUNT.
Proof. unfold bonusCalculator. by intros ->. Qed.

(** C1, at the case value £100000.01 under structure 1.  The parsed
    magnitude lies above the threshold by less than one target, so no whole
    target is exceeded; the quotient prints as [9.99999999476131e-7], of
    which [parseInt] reads the leading 9, and the bonus is 90. *)
Theorem bonusCalculator_just_above_threshold :
  (∃ m e,
     parseFloat (drop 1 (pound :: js "100000.01")) = S754_finite false m e ∧
     100000 * (fraction_of m e).2 < (fraction_of m e).1 ∧
     ((fraction_of m e).1 - 100000 * (fraction_of m e).2)
       / (10000 * (fraction_of m e).2) = 0) ∧
  ToString
    (num_div
       (num_sub (parseFloat (drop 1 (pound :: js "100000.01")))
          THRESHOLD_AMOUNT_1) TARGET_AMOUNT_1)
  = js "9.99999999476131e-7" ∧
  bonusCalculator (pound :: js "100000.01") THRESHOLD_AMOUNT_1 TARGET_AMOUNT_1
  = of_Z 90.
Proof.
  split; [|split]; [|by vm_compute..].
  eexists _, _. split; [by vm_compute|]. by vm_compute.
Qed.

(** ** Structure 2 *)

(** C2. Under structure 2, the bonus of every case is the sum of the
    structure-1 bonus (threshold 100000, target 10000) and the structure-2
    bonus (threshold 250000, target 50000), each computed on the whole
    normalised case value; a case of £310000.00 earns £220. *)
Theorem structure2_bonus_is_sum :
  (∀ (brokerCases : list row) gbp,
     convertCasesToGBP brokerCases CURRENCY_LOOKUP = Ok gbp →
     ∃ out,
       getCommissionData brokerCases (Some BONUS_TYPE_2) = Ok out ∧
       length out = length gbp ∧
       ∀ i b c v rest, gbp !! S i = Some (Some (b :: c :: v :: rest)) →
         out !! S i
         = Some [b; c; pound :: js "125";
                 pound :: ToString
                   (num_add
                      (bonusCalculator v THRESHOLD_AMOUNT_1 TARGET_AMOUNT_1)
                      (bonusCalculator v THRESHOLD_AMOUNT_2 TARGET_AMOUNT_2))]) ∧
  THRESHOLD_AMOUNT_1 = of_Z 100000 ∧ TARGET_AMOUNT_1 = of_Z 10000 ∧
  THRESHOLD_AMOUNT_2 = of_Z 250000 ∧ TARGET_AMOUNT_2 = of_Z 50000 ∧
  getCommissionData
    [caseHeader; [js "Alice"; js "1"; pound :: js "310000.00"]]
    (Some BONUS_TYPE_2)
  = Ok [commissionHeader;
        [js "Alice"; js "1"; pound :: js "125"; pound :: js "220"]].
Proof.
  split; [|by vm_compute].
  intros brokerCases gbp Hgbp.
  destruct (getCommissionData_of_gbp _ (Some BONUS_TYPE_2) _ Hgbp)
    as (out & Hout & Hrows).
  exists (commissionHeader :: out). split; [done|]. split.
  - simpl. rewrite <- (Forall2_length _ _ _ Hrows), length_drop.
    destruct (convertCasesToGBP_inv _ _ _ Hgbp) as (cv & -> & _). simpl. lia.
  - intros i b c v rest Hi. simpl.
    destruct (Forall2_lookup_l _ _ _ i (Some (b :: c :: v :: rest)) Hrows)
      as (o & -> & Hrow); [by rewrite lookup_drop|].
    simpl in Hrow. by injection Hrow as <-.
Qed.

Lemma structure2_bonus_is_sum_witness :
  ∃ out,
    getCommissionData
      [caseHeader; [js "Alice"; js "1"; pound :: js "310000.00"];
       [js "Bob"; js "2"; js "$100.00"]] (Some BONUS_TYPE_2) = Ok out ∧
    out !! 2%nat
    = Some [js "Bob"; js "2"; pound :: js "125";
            pound :: ToString
              (num_add
                 (bonusCalculator (pound :: js "80.00")
                    THRESHOLD_AMOUNT_1 TARGET_AMOUNT_1)
                 (bonusCalculator (pound :: js "80.00")
                    THRESHOLD_AMOUNT_2 TARGET_AMOUNT_2))].
Proof.
  destruct (proj1 structure2_bonus_is_sum
              [caseHeader; [js "Alice"; js "1"; pound :: js "310000.00"];
               [js "Bob"; js "2"; js "$100.00"]]
              [Some caseHeader;
               Some [js "Alice"; js "1"; pound :: js "310000.00"];
               Some [js "Bob"; js "2"; pound :: js "80.00"]])
    as (out & Hout & _ & Hrow).
  - by vm_compute.
  - exists out. split; [exact Hout|].
    exact (Hrow 1%nat (js "Bob") (js "2") (pound :: js "80.00") [] eq_refl).
Defined.

(** ** No bonus structure selected *)

(** C6, on a one-case file with no bonus structure selected: the data row
    has three fields, the header row four, [BonusCommission] among them. *)
Theorem no_bonus_header_keeps_bonus_column :
  getCommissionData
    [caseHeader; [js "Alice"; js "1"; pound :: js "100.00"]] None
  = Ok [[js "BrokerName"; js "CaseId"; js "BaseCommission";
         js "BonusCommission"];
        [js "Alice"; js "1"; pound :: js "125"]] ∧
  getCaseCommissionData
    (js "BrokerName,CaseId,CaseValue" ++ crlf ++ js "Alice,1," ++ [pound]
       ++ js "100.00")
    (λ rows, getCommissionData rows None)
  = Ok (js "BrokerName,CaseId,BaseCommission,BonusCommission" ++ crlf
          ++ js "Alice,1," ++ [pound] ++ js "125").
Proof. split; by vm_compute. Qed.

(** ** Trailing line breaks *)

Lemma trimStart_head (s : jsstring) :
  trimStart s = [] ∨
  ∃ c s', trimStart s = c :: s' ∧ isWhiteSpace c = false.
Proof.
  induction s as [|c s IH]; simpl; [by left|].
  destruct (isWhiteSpace c) eqn:Hc; [done|]. right. eauto.
Qed.

Lemma trimStart_app (a b : jsstring) :
  trimStart (a ++ b)
  = match trimStart a with [] => trimStart b | _ :: _ => trimStart a ++ b end.
Proof.
  induction a as [|c a IH]; simpl; [done|].
  by destruct (isWhiteSpace c).
Qed.

Lemma trimEnd_crlf (s : jsstring) : trimEnd (s ++ crlf) = trimEnd s.
Proof.
  unfold trimEnd, crlf. rewrite reverse_app.
  change (reverse [13%N; 10%N]) with [10%N; 13%N]. reflexivity.
Qed.

Lemma trim_crlf (text : jsstring) : trim (text ++ crlf) = trim text.
Proof.
  unfold trim. rewrite trimStart_app.
  destruct (trimStart text) as [|c s] eqn:Ht; [reflexivity|].
  by rewrite trimEnd_crlf.
Qed.

Lemma trim_last (text : jsstring) :
  trim text = [] ∨ ∃ s c, trim text = s ++ [c] ∧ isWhiteSpace c = false.
Proof.
  unfold trim, trimEnd.
  destruct (trimStart_head (reverse (trimStart text))) as [->|(c & s & -> & Hc)].
  - by left.
  - right. exists (reverse s), c. by rewrite reverse_cons.
Qed.

Lemma startsWith_cons (a b : N) (p s : jsstring) :
  startsWith (a :: p) (b :: s) = (a =? b)%N && startsWith p s.
Proof. done. Qed.

Lemma startsWith_crlf_snoc (x : N) (s : jsstring) (c : N) :
  c ≠ 10%N →
  startsWith crlf (x :: s ++ [c]) = startsWith crlf (x :: s).
Proof.
  intros Hc. destruct s as [|y s]; [|done].
  unfold crlf. simpl app. rewrite !startsWith_cons.
  destruct (N.eqb_spec 10 c); [congruence|].
  by destruct (13 =? x)%N.
Qed.

Lemma startsWith_crlf_app (x : N) (s : jsstring) :
  startsWith crlf (x :: s ++ crlf) = startsWith crlf (x :: s).
Proof.
  destruct s as [|y s]; [|done].
  unfold crlf. simpl app. rewrite !startsWith_cons.
  by destruct (13 =? x)%N.
Qed.

Lemma startsWith_crlf_length (x : N) (s : jsstring) :
  startsWith crlf (x :: s) = true → (1 ≤ length s)%nat.
Proof.
  destruct s; simpl; [|lia]. unfold crlf. rewrite startsWith_cons.
  by destruct (13 =? x)%N.
Qed.

(** A code unit other than a line feed, added at the end of a text, joins
    its last line. *)
Lemma split_from_snoc (s : jsstring) (k : nat) (c : N) :
  c ≠ 10%N → (k ≤ length s)%nat →
  ∃ init lastf,
    split_from crlf k s = init ++ [lastf] ∧
    split_from crlf k (s ++ [c]) = init ++ [lastf ++ [c]].
Proof.
  intros Hc. revert k; induction s as [|x s IH]; intros k Hk.
  - destruct k; [|simpl in Hk; lia]. exists [], []. split; [done|].
    simpl. destruct (startsWith crlf [c]) eqn:Hs; [|done].
    apply startsWith_crlf_length in Hs. simpl in Hs. lia.
  - destruct k as [|k]; simpl in *.
    + rewrite startsWith_crlf_snoc by done.
      destruct (startsWith crlf (x :: s)) eqn:Hs.
      * apply startsWith_crlf_length in Hs.
        destruct (IH 1%nat Hs) as (init & lastf & -> & ->).
        by exists ([] :: init), lastf.
      * destruct (IH 0%nat ltac:(lia)) as (init & lastf & -> & ->).
        destruct init as [|f init]; simpl.
        -- by exists [], (x :: lastf).
        -- by exists ((x :: f) :: init), lastf.
    + apply IH. lia.
Qed.

(** A line break added at the end of a text adds one empty line. *)
Lemma split_from_crlf (s : jsstring) (k : nat) :
  (k ≤ length s)%nat →
  split_from crlf k (s ++ crlf) = split_from crlf k s ++ [[]].
Proof.
  revert k; induction s as [|x s IH]; intros k Hk.
  - destruct k; [done|simpl in Hk; lia].
  - destruct k as [|k]; simpl in *.
    + rewrite startsWith_crlf_app.
      destruct (startsWith crlf (x :: s)) eqn:Hs.
      * apply startsWith_crlf_length in Hs. by rewrite IH.
      * rewrite IH by lia.
        pose proof (split_from_nonempty crlf 0 s).
        by destruct (split_from crlf 0 s).
    + apply IH. lia.
Qed.

Lemma split_crlf_eq (s : jsstring) : split crlf s = split_from crlf 0 s.
Proof. done. Qed.

Lemma split_comma_not_blank (f : jsstring) : f ≠ [] → split comma f ≠ [[]].
Proof.
  intros Hf Hs. apply Hf. rewrite <- (join_split comma f) by done.
  by rewrite Hs.
Qed.

Lemma trimStart_blank_app (pre s : jsstring) :
  blank pre → trimStart (pre ++ s) = trimStart s.
Proof. induction 1 as [|c pre Hc _ IH]; simpl; [done|]. by rewrite Hc. Qed.

Lemma trimStart_blank (s : jsstring) : blank s → trimStart s = [].
Proof.
  intros Hs. rewrite <- (app_nil_r s). by rewrite trimStart_blank_app.
Qed.

Lemma trimStart_fixed (s : jsstring) :
  (∀ c, head s = Some c → isWhiteSpace c = false) → trimStart s = s.
Proof. destruct s as [|c s]; simpl; [done|]. intros Hc. by rewrite Hc. Qed.

Lemma trimStart_decompose (s : jsstring) :
  ∃ pre, s = pre ++ trimStart s ∧ blank pre.
Proof.
  induction s as [|c s (pre & Hs & Hpre)]; simpl;
    [exists []; split; [done|constructor]|].
  destruct (isWhiteSpace c) eqn:Hc.
  - exists (c :: pre). split; [by rewrite Hs at 1|by constructor].
  - exists []. split; [done|constructor].
Qed.

(** [trim] removes the white space around a text and nothing else. *)
Lemma trim_padded (pre body post : jsstring) :
  blank pre → blank post → trimmed body →
  trim (pre ++ body ++ post) = body.
Proof.
  intros Hpre Hpost [Hhead Hlast]. unfold trim.
  rewrite trimStart_blank_app by done.
  destruct body as [|c body].
  - simpl. by rewrite trimStart_blank.
  - rewrite (trimStart_fixed ((c :: body) ++ post)) by apply Hhead.
    unfold trimEnd. rewrite reverse_app, trimStart_blank_app
      by (by apply Forall_reverse).
    rewrite trimStart_fixed, reverse_involutive; [done|].
    intros d. rewrite head_reverse. apply Hlast.
Qed.

Lemma trim_decompose (text : jsstring) :
  ∃ pre post,
    text = pre ++ trim text ++ post ∧ blank pre ∧ blank post
    ∧ trimmed (trim text).
Proof.
  destruct (trimStart_decompose text) as (pre & Htext & Hpre).
  destruct (trimStart_decompose (reverse (trimStart text)))
    as (tsop & Hrev & Htsop).
  assert (trimStart text = trim text ++ reverse tsop) as Hend.
  { unfold trim, trimEnd. rewrite <- reverse_app, <- Hrev.
    by rewrite reverse_involutive. }
  exists pre, (reverse tsop). split; [by rewrite <- Hend|].
  split; [done|]. split; [by apply Forall_reverse|]. split.
  - intros c Hc.
    destruct (trimStart_head text) as [Hnil|(d & s' & Hd & Hws)].
    + rewrite Hnil in Hend. symmetry in Hend.
      apply app_eq_nil in Hend as [Hend _]. by rewrite Hend in Hc.
    + rewrite Hd in Hend. destruct (trim text) as [|x t]; [done|].
      injection Hend as -> _. by injection Hc as <-.
  - intros c. unfold trim, trimEnd. rewrite last_reverse. intros Hc.
    destruct (trimStart_head (reverse (trimStart text)))
      as [Hnil|(d & s' & Hd & Hws)].
    + by rewrite Hnil in Hc.
    + rewrite Hd in Hc. by injection Hc as <-.
Qed.

(** What [createCommissionCSV] does with a file whose text is [body] with
    white space around it. *)
Lemma createCommissionCSV_padded (i o : jsstring)
    (gen : list row → result (list row)) (fs : filesystem)
    (pre body post : jsstring) :
  fs_files fs !! i = Some (pre ++ body ++ post) →
  blank pre → blank post → trimmed body →
  createCommissionCSV i o gen fs
  = (commissionData ← gen (convertCSVStrToArr body);
     if fs_writable fs o
     then Ok (written o (convertArrayToCSVStr commissionData) fs)
     else Throw IOError).
Proof.
  intros Hfile Hpre Hpost Hbody.
  unfold createCommissionCSV, readFileSync. rewrite Hfile. simpl.
  rewrite trim_padded by done. unfold getCaseCommissionData.
  by destruct (gen (convertCSVStrToArr body)).
Qed.

Lemma blank_crlf : blank crlf.
Proof. by repeat constructor. Qed.

(** C10. [createCommissionCSV] strips the white space around the text of
    the input file before it parses it: whatever white space surrounds a
    body that neither starts nor ends with white space, the data generator
    is handed the rows of the body alone, and every text is such a body
    with white space around it.  So a file that ends in a line break is
    processed as the file without it, and the last row handed to the
    generator is never the blank row [[""]] after other text.  The pure
    pipeline [getCaseCommissionData] hands its generator the rows of the
    text as it is, and returns the text as it is when the generator
    changes nothing; a text ending in a line break parses to one more
    row, made of one empty field.  The report is written when the output
    can be written; the run throws when it cannot, and when the input
    cannot be read. *)
Theorem createCommissionCSV_trims :
  (∀ i o gen (fs : filesystem) (pre body post : jsstring),
     fs_files fs !! i = Some (pre ++ body ++ post) →
     blank pre → blank post → trimmed body →
     createCommissionCSV i o gen fs
     = (commissionData ← gen (convertCSVStrToArr body);
        if fs_writable fs o
        then Ok (written o (convertArrayToCSVStr commissionData) fs)
        else Throw IOError)) ∧
  (∀ text : jsstring,
     ∃ pre body post,
       text = pre ++ body ++ post ∧ blank pre ∧ blank post ∧ trimmed body) ∧
  (∀ i o gen (fs : filesystem) (body : jsstring),
     fs_files fs !! i = Some (body ++ crlf) → trimmed body →
     createCommissionCSV i o gen fs
     = (commissionData ← gen (convertCSVStrToArr body);
        if fs_writable fs o
        then Ok (written o (convertArrayToCSVStr commissionData) fs)
        else Throw IOError)) ∧
  (∀ body : jsstring,
     trimmed body → body ≠ [] →
     ∃ rows lastRow,
       convertCSVStrToArr body = rows ++ [lastRow] ∧ lastRow ≠ [[]]) ∧
  (∀ T gen,
     getCaseCommissionData T gen
     = (commissionData ← gen (convertCSVStrToArr T);
        Ok (convertArrayToCSVStr commissionData))) ∧
  (∀ T, getCaseCommissionData T Ok = Ok T) ∧
  (∀ T, convertCSVStrToArr (T ++ crlf) = convertCSVStrToArr T ++ [[[]]]) ∧
  (∀ i o gen (fs : filesystem),
     fs_files fs !! i = None → createCommissionCSV i o gen fs = Throw IOError).
Proof.
  split; [|split; [|split; [|split; [|split; [|split; [|split]]]]]];
    [..|intros i o gen fs Hfile;
        unfold createCommissionCSV, readFileSync; by rewrite Hfile].
  - apply createCommissionCSV_padded.
  - intros text. destruct (trim_decompose text) as (pre & post & H).
    by exists pre, (trim text), post.
  - intros i o gen fs body Hfile Hbody.
    apply (createCommissionCSV_padded i o gen fs [] body crlf);
      [done|constructor|apply blank_crlf|done].
  - intros body [_ Hlast] Hne.
    destruct (proj2 (last_is_Some body) Hne) as [c Hc].
    pose proof (Hlast c Hc) as Hws.
    apply last_Some in Hc as [s ->].
    unfold convertCSVStrToArr.
    destruct (split_from_snoc s 0 c) as (init & lastf & _ & Hsplit);
      [by intros -> | lia |].
    exists (split comma <$> init), (split comma (lastf ++ [c])).
    split.
    + by rewrite split_crlf_eq, Hsplit, fmap_app.
    + apply split_comma_not_blank. by destruct lastf.
  - done.
  - intros T. unfold getCaseCommissionData. simpl. f_equal.
    rewrite convertArrayToCSVStr_join. unfold convertCSVStrToArr.
    rewrite <- list_fmap_compose.
    rewrite (list_fmap_ext _ id (split crlf T)), list_fmap_id.
    + by apply join_split.
    + intros n f _. by apply (join_split comma).
  - intros T. unfold convertCSVStrToArr.
    by rewrite !split_crlf_eq, split_from_crlf, fmap_app by lia.
Qed.

Lemma createCommissionCSV_trims_witness :
  createCommissionCSV (js "cases.csv") (js "out.csv") Ok
    {| fs_files := {[ js "cases.csv" := js " " ++ js "a,b" ++ crlf ]};
       fs_writable := λ _, true |}
  = (commissionData ← Ok (convertCSVStrToArr (js "a,b"));
     if true
     then Ok (written (js "out.csv") (convertArrayToCSVStr commissionData)
                {| fs_files :=
                     {[ js "cases.csv" := js " " ++ js "a,b" ++ crlf ]};
                   fs_writable := λ _, true |})
     else Throw IOError).
Proof.
  apply (proj1 createCommissionCSV_trims (js "cases.csv") (js "out.csv") Ok
           {| fs_files := {[ js "cases.csv" := js " " ++ js "a,b" ++ crlf ]};
              fs_writable := λ _, true |}
           (js " ") (js "a,b") crlf).
  - by vm_compute.
  - by repeat constructor.
  - apply blank_crlf.
  - split; intros c Hc; vm_compute in Hc; by injection Hc as <-.
Defined.

(** The same case file, with a line break after its last row, through the
    two entry points: the pure pipeline meets a row of one field and
    throws; the file-based one writes the report where it can write, and
    throws where it cannot. *)
Lemma trailing_break_example :
  let text := js "BrokerName,CaseId,CaseValue" ++ crlf
              ++ js "Alice,1," ++ [pound] ++ js "100.00" ++ crlf in
  let report := js "BrokerName,CaseId,BaseCommission,BonusCommission"
                ++ crlf ++ js "Alice,1," ++ [pound] ++ js "125,"
                ++ [pound] ++ js "0" in
  getCaseCommissionData text (λ rows, getCommissionData rows (Some BONUS_TYPE_1))
  = Throw TypeError ∧
  createCommissionCSV (js "in") (js "out")
    (λ rows, getCommissionData rows (Some BONUS_TYPE_1))
    {| fs_files := {[ js "in" := text ]}; fs_writable := λ _, true |}
  = Ok {| fs_files := {[ js "in" := text; js "out" := report ]};
          fs_writable := λ _, true |} ∧
  createCommissionCSV (js "in") (js "out")
    (λ rows, getCommissionData rows (Some BONUS_TYPE_1))
    {| fs_files := {[ js "in" := text ]}; fs_writable := λ _, false |}
  = Throw IOError.
Proof. repeat split; by vm_compute. Qed.

(** ** The lookup object *)

Lemma getOwn_None (key : jsstring) (o : jsobject) :
  getOwn key o = None ↔ key ∉ o.*1.
Proof.
  induction o as [|[k v] o IH]; simpl.
  - split; [intros _; apply not_elem_of_nil|done].
  - rewrite not_elem_of_cons. destruct (decide (k = key)) as [->|Hne].
    + split; [done|]. by intros [? _].
    + rewrite IH. split; [by intros ?|by intros [_ ?]].
Qed.

Lemma getOwn_putOwn (key n : jsstring) v (o : jsobject) :
  getOwn n (putOwn key v o) = if decide (key = n) then Some v else getOwn n o.
Proof.
  induction o as [|[k w] o IH]; simpl.
  - by destruct (decide (key = n)).
  - destruct (decide (k = key)) as [->|Hne]; simpl.
    + by destruct (decide (key = n)).
    + rewrite IH. destruct (decide (k = n)) as [->|]; [|done].
      by rewrite decide_False by done.
Qed.

Lemma putOwn_keys (key : jsstring) v (o : jsobject) :
  (putOwn key v o).*1 = if decide (key ∈ o.*1) then o.*1 else o.*1 ++ [key].
Proof.
  induction o as [|[k w] o IH].
  - by rewrite decide_False by apply not_elem_of_nil.
  - cbn [putOwn]. destruct (decide (k = key)) as [->|Hne].
    + rewrite !fmap_cons. cbn [fst]. by rewrite decide_True by left.
    + rewrite !fmap_cons, IH. cbn [fst].
      destruct (decide (key ∈ o.*1)) as [Hin|Hnin].
      * by rewrite decide_True by (by right).
      * rewrite decide_False; [done|].
        rewrite not_elem_of_cons. naive_solver.
Qed.

(** ** The order of the keys *)

Lemma insertIndex_perm k l : insertIndex k l ≡ₚ k :: l.
Proof.
  induction l as [|k' l IH]; simpl; [done|].
  destruct (k.1 <=? k'.1); [done|]. by rewrite IH, Permutation_swap.
Qed.

Lemma ownKeys_perm (created : list jsstring) : ownKeys created ≡ₚ created.
Proof.
  unfold ownKeys.
  assert (∀ l, foldr insertIndex [] l ≡ₚ l) as Hsort.
  { induction l as [|k l IH]; simpl; [done|]. by rewrite insertIndex_perm, IH. }
  rewrite Hsort. clear Hsort.
  induction created as [|n l IH]; [done|]. simpl.
  destruct (arrayIndex n) as [i|] eqn:Hn; simpl.
  - rewrite filter_cons_False by (by rewrite Hn). by rewrite IH.
  - rewrite filter_cons_True by done.
    by rewrite <- Permutation_middle, IH.
Qed.

Lemma ownKeys_no_index (created : list jsstring) :
  Forall (λ n, arrayIndex n = None) created → ownKeys created = created.
Proof.
  unfold ownKeys. intros Hall.
  assert (omap (λ k, (λ i, (i, k)) <$> arrayIndex k) created = []) as ->.
  { induction Hall as [|n l Hn _ IH]; [done|]. simpl. by rewrite Hn. }
  simpl. induction Hall as [|n l Hn _ IH]; [done|].
  by rewrite filter_cons_True, IH.
Qed.

(** ** The summary loop *)

Lemma firstSeen_elem_of (names : list jsstring) n :
  n ∈ firstSeen names ↔ n ∈ names.
Proof.
  induction names as [|m names IH]; [done|]. simpl.
  rewrite !elem_of_cons, list_elem_of_filter, IH.
  destruct (decide (n = m)) as [->|]; intuition congruence.
Qed.

Lemma firstSeen_NoDup (names : list jsstring) : NoDup (firstSeen names).
Proof.
  induction names as [|m names IH]; simpl; constructor.
  - rewrite list_elem_of_filter. by intros [? _].
  - by apply NoDup_filter.
Qed.

Lemma totalFrom_cons start name (r : row) rows :
  totalFrom start name (r :: rows)
  = totalFrom (if decide (brokerOf r = name) then rowTotal start r else start)
      name rows.
Proof.
  unfold totalFrom. rewrite filter_cons.
  by destruct (decide (brokerOf r = name)).
Qed.

(** Array indices are listed first, in ascending order. *)
Lemma insertIndex_sorted k l :
  StronglySorted Z.le l.*1 → StronglySorted Z.le (insertIndex k l).*1.
Proof.
  induction l as [|k' l IH]; intros Hs; simpl.
  - repeat constructor.
  - apply StronglySorted_inv in Hs as [Hs Hall].
    destruct (Z.leb_spec k.1 k'.1) as [Hle|Hgt]; simpl.
    + constructor; [by constructor|].
      constructor; [done|]. eapply Forall_impl; [exact Hall|].
      intros z Hz. simpl in Hz. lia.
    + constructor; [by apply IH|].
      rewrite insertIndex_perm, fmap_cons.
      constructor; [lia|done].
Qed.

Lemma ownKeys_indices_first (created : list jsstring) :
  ∃ indices : list (Z * jsstring),
    ownKeys created
    = indices.*2 ++ filter (λ k, arrayIndex k = None) created ∧
    StronglySorted Z.le indices.*1 ∧
    Forall (λ p, arrayIndex p.2 = Some p.1) indices.
Proof.
  exists (foldr insertIndex []
            (omap (λ k, (λ i, (i, k)) <$> arrayIndex k) created)).
  split; [done|]. split.
  - induction (omap (λ k, (λ i, (i, k)) <$> arrayIndex k) created)
      as [|p l IH]; simpl; [constructor|]. by apply insertIndex_sorted.
  - assert (Forall (λ p, arrayIndex p.2 = Some p.1)
              (omap (λ k, (λ i, (i, k)) <$> arrayIndex k) created)) as Hall.
    { induction created as [|n l IH]; simpl; [constructor|].
      destruct (arrayIndex n) eqn:Hn; simpl; [by constructor|done]. }
    induction Hall as [|p l Hp _ IH]; simpl; [constructor|].
    rewrite insertIndex_perm. by constructor.
Qed.

(** The loop, started on an object that has no own [hasOwnProperty], over
    rows of four fields or more whose brokers are named neither
    [__proto__] nor [hasOwnProperty]: it returns; the keys are the old
    ones followed by the new names as first seen; and every key holds its
    old value with its broker's rows added in order. *)
Lemma summaryLoop_spec (rows : list row) (o : jsobject) :
  Forall (λ r : row, (4 ≤ length r)%nat) rows →
  Forall (λ r : row, brokerOf r ≠ js "__proto__"
                     ∧ brokerOf r ≠ js "hasOwnProperty") rows →
  js "hasOwnProperty" ∉ o.*1 →
  ∃ o',
    summaryLoop o rows = Ok o' ∧
    o'.*1 = o.*1 ++ filter (λ n, n ∉ o.*1) (firstSeen (brokerOf <$> rows)) ∧
    ∀ n, n ∈ o'.*1 →
      getOwn n o'
      = Some (totalFrom (default (S754_zero false) (getOwn n o)) n rows).
Proof.
  intros Hlen. revert o.
  induction Hlen as [|r rows Hr _ IH]; intros o Hnames Hhas.
  - exists o. split; [done|]. split; [by rewrite app_nil_r|].
    intros n Hn. unfold totalFrom. simpl.
    destruct (getOwn n o) eqn:Hg; [done|]. by apply getOwn_None in Hg.
  - apply Forall_cons in Hnames as [[Hproto Hown] Hnames].
    destruct r as [|b [|c [|base [|bonus rest]]]]; simpl in Hr; try lia.
    change (brokerOf (b :: c :: base :: bonus :: rest)) with b in *.
    set (r := b :: c :: base :: bonus :: rest).
    set (v := rowTotal (default (S754_zero false) (getOwn b o)) r).
    assert (summaryStep o r = Ok (putOwn b v o)) as Hstep.
    { unfold summaryStep. rewrite (proj2 (getOwn_None _ _) Hhas). simpl.
      unfold assign. by rewrite decide_False by done. }
    destruct (IH (putOwn b v o) Hnames) as (o' & Hloop & Hkeys & Hvals).
    { rewrite putOwn_keys. case_decide; [done|].
      rewrite elem_of_app, list_elem_of_singleton. intuition congruence. }
    exists o'. split; [simpl; by rewrite Hstep|]. split.
    + rewrite Hkeys, putOwn_keys. rewrite fmap_cons.
      change (brokerOf r) with b. simpl firstSeen.
      destruct (decide (b ∈ o.*1)) as [Hin|Hnin].
      * rewrite filter_cons_False by (by intros ?).
        f_equal. symmetry. apply list_filter_filter_l. by intros n Hn ->.
      * rewrite filter_cons_True by done.
        rewrite <- app_assoc. simpl. do 2 f_equal.
        rewrite list_filter_filter. apply list_filter_iff. intros n.
        rewrite elem_of_app, list_elem_of_singleton. intuition congruence.
    + intros n Hn. rewrite (Hvals n Hn), totalFrom_cons, getOwn_putOwn.
      change (brokerOf r) with b.
      by destruct (decide (b = n)) as [<-|].
Qed.

Lemma filter_not_in_nil (l : list jsstring) :
  filter (λ n, n ∉ ([] : list jsstring)) l = l.
Proof.
  induction l as [|n l IH]; [done|].
  by rewrite filter_cons_True, IH by apply not_elem_of_nil.
Qed.

(** C5, as amended.  On a report whose data rows have four fields or more
    and whose brokers are named neither [__proto__] nor [hasOwnProperty],
    the summary is the header followed by one row per distinct broker
    name, each carrying the broker's rows added up in order as
    [(total + base) + bonus]; the rows come in the key order of the lookup
    object: the names that are array indices first, in ascending numeric
    order, then the other names as first seen; so first-seen order
    whenever no name is an array index. *)
Theorem summary_rows (brokerCases : list row) :
  Forall (λ r : row, (4 ≤ length r)%nat) (drop 1 brokerCases) →
  Forall (λ r : row, brokerOf r ≠ js "__proto__"
                     ∧ brokerOf r ≠ js "hasOwnProperty") (drop 1 brokerCases) →
  let names := firstSeen (brokerOf <$> drop 1 brokerCases) in
  getCommissionSummaryData brokerCases
  = Ok (summaryHeader
          :: ((λ name, [name; pound :: ToString
                                (brokerTotal name (drop 1 brokerCases))])
                <$> ownKeys names)) ∧
  NoDup names ∧
  (∀ n, n ∈ names ↔ n ∈ brokerOf <$> drop 1 brokerCases) ∧
  ownKeys names ≡ₚ names ∧
  (Forall (λ n, arrayIndex n = None) names → ownKeys names = names) ∧
  (∃ indices : list (Z * jsstring),
     ownKeys names = indices.*2 ++ filter (λ k, arrayIndex k = None) names ∧
     StronglySorted Z.le indices.*1 ∧
     Forall (λ p, arrayIndex p.2 = Some p.1) indices).
Proof.
  intros Hlen Hnames names.
  split; [|split; [|split; [|split; [|split]]]]; [| | | | |apply ownKeys_indices_first].
  - unfold getCommissionSummaryData.
    destruct (summaryLoop_spec _ [] Hlen Hnames) as (o' & -> & Hkeys & Hvals);
      [apply not_elem_of_nil|].
    simpl. do 2 f_equal.
    assert (o'.*1 = names) as Hk.
    { rewrite Hkeys. apply filter_not_in_nil. }
    rewrite Hk. apply list_fmap_ext. intros i n Hi.
    unfold summaryRow. rewrite Hvals; [done|].
    rewrite Hk, <- (ownKeys_perm names). by eapply list_elem_of_lookup_2.
  - apply firstSeen_NoDup.
  - intros n. apply firstSeen_elem_of.
  - apply ownKeys_perm.
  - apply ownKeys_no_index.
Qed.

Lemma summary_rows_witness :
  getCommissionSummaryData
    [commissionHeader;
     [js "Alice"; js "1"; pound :: js "125"; pound :: js "0"];
     [js "Alice"; js "2"; pound :: js "125"; pound :: js "10"]]
  = Ok [summaryHeader; [js "Alice"; pound :: js "260"]].
Proof.
  destruct (summary_rows
              [commissionHeader;
               [js "Alice"; js "1"; pound :: js "125"; pound :: js "0"];
               [js "Alice"; js "2"; pound :: js "125"; pound :: js "10"]])
    as (H & _).
  - repeat constructor.
  - by repeat constructor.
  - rewrite H. by vm_compute.
Defined.

(** C5 as stated fails on the order: the brokers ["2"] and ["1"], seen in
    that order, are summarised the other way round. *)
Lemma summary_order_counterexample :
  getCommissionSummaryData
    [commissionHeader;
     [js "2"; js "1"; pound :: js "125"; pound :: js "0"];
     [js "1"; js "2"; pound :: js "125"; pound :: js "10"]]
  = Ok [summaryHeader; [js "1"; pound :: js "135"];
        [js "2"; pound :: js "125"]] ∧
  firstSeen (brokerOf <$> [[js "2"; js "1"; pound :: js "125"; pound :: js "0"];
                           [js "1"; js "2"; pound :: js "125"; pound :: js "10"]])
  = [js "2"; js "1"].
Proof. split; by vm_compute. Qed.

(** ** The summary of a report without a bonus column *)

Lemma summaryStep_error (o : jsobject) (r : row) e :
  summaryStep o r = Throw e → e = TypeError.
Proof.
  unfold summaryStep. destruct (getOwn _ o); [by intros [= <-]|].
  destruct r as [|b [|c [|base [|bonus rest]]]]; by intros [= <-].
Qed.

Lemma summaryStep_short (o : jsobject) (r : row) :
  (length r < 4)%nat → summaryStep o r = Throw TypeError.
Proof.
  unfold summaryStep. destruct (getOwn _ o); [done|].
  destruct r as [|b [|c [|base [|bonus rest]]]]; simpl; [done..|lia].
Qed.

Lemma summaryLoop_short (rows : list row) (o : jsobject) :
  Exists (λ r : row, (length r < 4)%nat) rows →
  summaryLoop o rows = Throw TypeError.
Proof.
  intros Hex. revert o. induction Hex as [r rows Hr|r rows _ IH]; intros o.
  - simpl. by rewrite summaryStep_short.
  - simpl. destruct (summaryStep o r) as [o'|e] eqn:Hstep; simpl.
    + apply IH.
    + by rewrite (summaryStep_error _ _ _ Hstep).
Qed.

Lemma commissionRow_no_bonus_length g (o : row) :
  commissionRow None g = Ok o → length o = 3%nat.
Proof.
  destruct g as [[|b [|c [|v rest]]]|]; simpl; try done. by intros [= <-].
Qed.

(** C8, as amended.  The summary generator does not validate its input,
    but it does not run to completion on a report with a data row of fewer
    than four fields: it throws a TypeError and returns nothing.  Every
    report produced with no bonus structure selected, for at least one
    case, is such an input. *)
Theorem summary_of_short_rows :
  (∀ brokerCases : list row,
     Exists (λ r : row, (length r < 4)%nat) (drop 1 brokerCases) →
     getCommissionSummaryData brokerCases = Throw TypeError) ∧
  (∀ (brokerCases report : list row),
     getCommissionData brokerCases None = Ok report →
     (1 < length report)%nat →
     getCommissionSummaryData report = Throw TypeError).
Proof.
  assert (∀ brokerCases : list row,
     Exists (λ r : row, (length r < 4)%nat) (drop 1 brokerCases) →
     getCommissionSummaryData brokerCases = Throw TypeError) as Hshort.
  { intros brokerCases Hex. unfold getCommissionSummaryData.
    by rewrite summaryLoop_short. }
  split; [exact Hshort|].
  intros brokerCases report Hreport Hlen. apply Hshort.
  unfold getCommissionData in Hreport.
  destruct (convertCasesToGBP brokerCases CURRENCY_LOOKUP) as [gbp|] eqn:Hgbp;
    [|done].
  destruct (getCommissionData_of_gbp _ None _ Hgbp) as (out & Hout & Hrows).
  unfold getCommissionData in Hout. rewrite Hgbp in Hout.
  rewrite Hout in Hreport. injection Hreport as <-.
  simpl. rewrite drop_0. destruct out as [|o out]; [simpl in Hlen; lia|].
  apply Exists_cons_hd. apply Forall2_cons_inv_r in Hrows
    as (g & gs & Hrow & _ & _).
  rewrite (commissionRow_no_bonus_length _ _ Hrow). lia.
Qed.

Lemma summary_of_short_rows_witness :
  getCommissionData [caseHeader; [js "Alice"; js "1"; pound :: js "100.00"]] None
  = Ok [commissionHeader; [js "Alice"; js "1"; pound :: js "125"]] ∧
  getCommissionSummaryData
    [commissionHeader; [js "Alice"; js "1"; pound :: js "125"]]
  = Throw TypeError.
Proof.
  assert (getCommissionData
            [caseHeader; [js "Alice"; js "1"; pound :: js "100.00"]] None
          = Ok [commissionHeader; [js "Alice"; js "1"; pound :: js "125"]])
    as H by (by vm_compute).
  split; [exact H|].
  apply (proj2 summary_of_short_rows _ _ H). simpl. lia.
Defined.

(** C8 as stated fails: on the report of one case produced without a bonus
    structure, the summary generator returns no output. *)
Lemma summary_of_no_bonus_report_throws :
  ¬ ∃ out,
      getCommissionSummaryData
        [[js "BrokerName"; js "CaseId"; js "BaseCommission";
          js "BonusCommission"];
         [js "Alice"; js "1"; pound :: js "125"]] = Ok out.
Proof. intros [out Hout]. by vm_compute in Hout. Qed.

(* ===================================================================== *)
(** * Part III: further properties of the code                            *)
(* ===================================================================== *)

(** ** The shape of parsed rows *)

Lemma split_comma_eq (s : jsstring) : split comma s = split_from comma 0 s.
Proof. done. Qed.

(** No field cut at commas holds a comma. *)
Lemma split_from_comma_free (s : jsstring) :
  Forall (λ f : jsstring, 44%N ∉ f) (split_from comma 0 s).
Proof.
  induction s as [|c s IH]; simpl.
  - repeat constructor. apply not_elem_of_nil.
  - unfold comma at 1. rewrite startsWith_cons.
    destruct (N.eqb_spec 44 c) as [<-|Hc]; simpl.
    + constructor; [apply not_elem_of_nil|done].
    + pose proof (split_from_nonempty comma 0 s).
      destruct (split_from comma 0 s) as [|f fs]; [done|].
      apply Forall_cons in IH as [Hf Hfs]. constructor; [|done].
      rewrite not_elem_of_cons. by split.
Qed.

(** The first line starts as the text does. *)
Lemma split_from_head (s f : jsstring) fs :
  split_from crlf 0 s = f :: fs →
  f = [] ∨ ∃ c f' s', f = c :: f' ∧ s = c :: s'.
Proof.
  destruct s as [|c s]; simpl; [intros [= <- _]; by left|].
  destruct (startsWith crlf (c :: s)); [intros [= <- _]; by left|].
  pose proof (split_from_nonempty crlf 0 s).
  destruct (split_from crlf 0 s) as [|f0 fs0]; [done|].
  intros [= <- _]. right. eauto.
Qed.

(** No line cut at line breaks holds a line break. *)
Lemma split_from_crlf_free (s : jsstring) (k : nat) :
  Forall (λ line : jsstring, ∀ i, startsWith crlf (drop i line) = false)
    (split_from crlf k s).
Proof.
  assert (∀ i, startsWith crlf (drop i []) = false) as Hnil
    by (intros i; by rewrite drop_nil).
  revert k; induction s as [|c s IH]; intros k; simpl.
  - by repeat constructor.
  - destruct k as [|k]; [|apply IH].
    destruct (startsWith crlf (c :: s)) eqn:Hs.
    + constructor; [done|apply IH].
    + specialize (IH 0%nat).
      destruct (split_from crlf 0 s) as [|f fs] eqn:Hsplit;
        [by pose proof (split_from_nonempty crlf 0 s)|].
      apply Forall_cons in IH as [Hf Hfs]. constructor; [|done].
      intros [|i]; [|apply Hf]. rewrite drop_0.
      destruct (split_from_head _ _ _ Hsplit) as [->|(y & f' & s' & -> & ->)].
      * unfold crlf. rewrite startsWith_cons. by destruct (13 =? c)%N.
      * exact Hs.
Qed.

(** X1. Every text parses to at least one row, every row has at least one
    field, no field holds a comma, and no row, put back together, holds a
    line break. *)
Theorem parsed_rows_shape (T : jsstring) :
  convertCSVStrToArr T ≠ [] ∧
  Forall (λ r : row,
            r ≠ [] ∧ Forall (λ f : jsstring, 44%N ∉ f) r ∧
            ∀ i, startsWith crlf (drop i (join comma r)) = false)
    (convertCSVStrToArr T).
Proof.
  unfold convertCSVStrToArr. rewrite split_crlf_eq. split.
  - pose proof (split_from_nonempty crlf 0 T).
    by destruct (split_from crlf 0 T).
  - apply Forall_fmap. eapply Forall_impl; [apply split_from_crlf_free|].
    intros line Hline. cbv beta. split; [|split].
    + rewrite split_comma_eq. apply split_from_nonempty.
    + rewrite split_comma_eq. apply split_from_comma_free.
    + by rewrite join_split.
Qed.

(** ** Parsing what was serialised *)

Lemma startsWith_crlf_more (x : N) (s rest : jsstring) :
  startsWith crlf (x :: s ++ 13%N :: rest) = startsWith crlf (x :: s).
Proof.
  destruct s as [|y s]; [|done].
  unfold crlf. simpl app. rewrite !startsWith_cons.
  by destruct (13 =? x)%N.
Qed.

(** A text followed by a line break and a second text: the lines of the
    first, then the lines of the second. *)
Lemma split_from_crlf_app (s rest : jsstring) (k : nat) :
  (k ≤ length s)%nat →
  split_from crlf k (s ++ crlf ++ rest)
  = split_from crlf k s ++ split_from crlf 0 rest.
Proof.
  change (crlf ++ rest) with (13%N :: 10%N :: rest).
  revert k; induction s as [|x s IH]; intros k Hk.
  - destruct k; [done|simpl in Hk; lia].
  - destruct k as [|k]; simpl in *.
    + rewrite startsWith_crlf_more.
      destruct (startsWith crlf (x :: s)) eqn:Hs.
      * apply startsWith_crlf_length in Hs. by rewrite IH.
      * rewrite IH by lia.
        pose proof (split_from_nonempty crlf 0 s).
        by destruct (split_from crlf 0 s).
    + apply IH. lia.
Qed.

Lemma split_from_comma_app (f rest : jsstring) :
  44%N ∉ f →
  split_from comma 0 (f ++ comma ++ rest) = f :: split_from comma 0 rest.
Proof.
  change (comma ++ rest) with (44%N :: rest).
  induction f as [|c f IH]; intros Hf; [done|].
  apply not_elem_of_cons in Hf as [Hc Hf]. simpl.
  unfold comma at 1. rewrite startsWith_cons.
  destruct (N.eqb_spec 44 c) as [?|_]; [congruence|]. simpl.
  by rewrite IH.
Qed.

Lemma split_from_comma_one (f : jsstring) :
  44%N ∉ f → split_from comma 0 f = [f].
Proof.
  induction f as [|c f IH]; intros Hf; [done|].
  apply not_elem_of_cons in Hf as [Hc Hf]. simpl.
  unfold comma at 1. rewrite startsWith_cons.
  destruct (N.eqb_spec 44 c) as [?|_]; [congruence|]. simpl.
  by rewrite IH.
Qed.

Lemma split_join_comma (r : row) :
  r ≠ [] → Forall (λ f : jsstring, 44%N ∉ f) r →
  split comma (join comma r) = r.
Proof.
  intros Hr Hall. rewrite split_comma_eq.
  induction Hall as [|f r Hf Hall IH]; [done|].
  destruct r as [|g r]; [by apply split_from_comma_one|].
  rewrite join_cons by done. rewrite split_from_comma_app by done.
  by rewrite IH.
Qed.

Lemma split_from_crlf_one (line : jsstring) :
  (∀ i, startsWith crlf (drop i line) = false) →
  split_from crlf 0 line = [line].
Proof.
  induction line as [|c line IH]; intros Hfree; [done|]. simpl.
  pose proof (Hfree 0%nat) as H0. rewrite drop_0 in H0. rewrite H0.
  rewrite IH; [done|]. intros i. apply (Hfree (S i)).
Qed.

Lemma split_join_crlf (lines : list jsstring) :
  lines ≠ [] →
  Forall (λ line : jsstring, ∀ i, startsWith crlf (drop i line) = false) lines →
  split crlf (join crlf lines) = lines.
Proof.
  intros Hl Hall. rewrite split_crlf_eq.
  induction Hall as [|line lines Hline Hall IH]; [done|].
  destruct lines as [|l2 lines]; [by apply split_from_crlf_one|].
  rewrite join_cons by done. rewrite split_from_crlf_app by lia.
  rewrite split_from_crlf_one by done. by rewrite IH.
Qed.

(** X2. Parsing the serialisation of rows gives the rows back, when there
    is at least one row, every row has at least one field, no field holds
    a comma and no row, joined by commas, holds a line break: exactly the
    rows that parsing can produce. *)
Theorem parse_of_serialised (dataArr : list row) :
  dataArr ≠ [] →
  Forall (λ r : row,
            r ≠ [] ∧ Forall (λ f : jsstring, 44%N ∉ f) r ∧
            ∀ i, startsWith crlf (drop i (join comma r)) = false) dataArr →
  convertCSVStrToArr (convertArrayToCSVStr dataArr) = dataArr.
Proof.
  intros Hne Hall. rewrite convertArrayToCSVStr_join.
  unfold convertCSVStrToArr. rewrite split_join_crlf.
  - rewrite <- list_fmap_compose. rewrite <- (list_fmap_id dataArr) at 2.
    apply list_fmap_ext. intros i r Hr. simpl.
    rewrite list.Forall_forall in Hall.
    destruct (Hall r) as (Hr1 & Hr2 & _); [by eapply list_elem_of_lookup_2|].
    by apply split_join_comma.
  - by destruct dataArr.
  - apply Forall_fmap. eapply Forall_impl; [exact Hall|].
    by intros r (_ & _ & Hr).
Qed.

Lemma parse_of_serialised_witness :
  convertCSVStrToArr
    (convertArrayToCSVStr [[js "a"; js ""]; [[13%N]; [10%N]]; [js "b c"]])
  = [[js "a"; js ""]; [[13%N]; [10%N]]; [js "b c"]].
Proof.
  apply parse_of_serialised; [done|].
  repeat apply Forall_cons_2; [..|apply Forall_nil_2].
  all: split; [done|split; [repeat apply Forall_cons_2; [..|apply Forall_nil_2];
                            apply (bool_decide_unpack _); by vm_compute|]].
  all: intros i; set (line := join comma _); vm_compute in line; subst line.
  all: do 4 (destruct i as [|i]; [by vm_compute|]).
  all: by vm_compute.
Defined.

(** ** Texts and row lists put end to end *)

(** X3. Parsing works line by line: a text, a line break and a second text
    parse to the rows of the first followed by the rows of the second,
    whatever the two texts hold. *)
Theorem parse_of_joined_texts (A B : jsstring) :
  convertCSVStrToArr (A ++ crlf ++ B)
  = convertCSVStrToArr A ++ convertCSVStrToArr B.
Proof.
  unfold convertCSVStrToArr.
  by rewrite !split_crlf_eq, split_from_crlf_app, fmap_app by lia.
Qed.

Lemma join_app (sep : jsstring) (l1 l2 : list jsstring) :
  l1 ≠ [] → l2 ≠ [] →
  join sep (l1 ++ l2) = join sep l1 ++ sep ++ join sep l2.
Proof.
  intros H1 H2. induction l1 as [|x l1 IH]; [done|].
  destruct l1 as [|y l1].
  - simpl app. by rewrite join_cons.
  - rewrite <- app_comm_cons, !join_cons, IH, <- !app_assoc by done. done.
Qed.

(** X4. Serialising puts a line break between rows and nowhere else: two
    non-empty lists of rows, one after the other, serialise to the two
    serialisations with one line break between them; no rows serialise to
    the empty text. *)
Theorem serialise_of_joined_rows (rows1 rows2 : list row) :
  rows1 ≠ [] → rows2 ≠ [] →
  convertArrayToCSVStr (rows1 ++ rows2)
  = convertArrayToCSVStr rows1 ++ crlf ++ convertArrayToCSVStr rows2
  ∧ convertArrayToCSVStr [] = [].
Proof.
  intros H1 H2. split; [|done].
  rewrite !convertArrayToCSVStr_join, fmap_app.
  apply join_app; by destruct rows1, rows2.
Qed.

Lemma serialise_of_joined_rows_witness :
  convertArrayToCSVStr ([[js "a"; js "b"]] ++ [[js "c"]; []])
  = convertArrayToCSVStr [[js "a"; js "b"]] ++ crlf
    ++ convertArrayToCSVStr [[js "c"]; []]
  ∧ convertArrayToCSVStr [] = [].
Proof. by apply serialise_of_joined_rows. Defined.

(** ** More on the currency normaliser *)

(** X5. When the normaliser returns, its first element is the input's
    first row untouched, and it has one element per input row; for the
    empty array, whose first row is [undefined], that makes one element
    where the input had none. *)
Theorem convertCasesToGBP_shape lookup (brokerCases : list row) out :
  convertCasesToGBP brokerCases lookup = Ok out →
  out !! 0%nat = Some (brokerCases !! 0%nat) ∧
  length out = Nat.max 1 (length brokerCases) ∧
  (brokerCases = [] → out = [None]).
Proof.
  intros Hout.
  destruct (convertCasesToGBP_inv _ _ _ Hout) as (cv & -> & Hcv).
  split; [done|]. split.
  - simpl. rewrite length_fmap, <- (Forall2_length _ _ _ Hcv), length_drop. lia.
  - intros ->. simpl in Hcv. by apply Forall2_nil_inv_l in Hcv as ->.
Qed.

Lemma convertCasesToGBP_shape_witness :
  ∃ out,
    convertCasesToGBP [caseHeader; [js "Alice"; js "1"; js "$100.00"]]
      CURRENCY_LOOKUP = Ok out ∧
    out !! 0%nat = Some (Some caseHeader) ∧ length out = 2%nat.
Proof.
  exists [Some caseHeader; Some [js "Alice"; js "1"; pound :: js "80.00"]].
  assert (convertCasesToGBP [caseHeader; [js "Alice"; js "1"; js "$100.00"]]
            CURRENCY_LOOKUP
          = Ok [Some caseHeader; Some [js "Alice"; js "1"; pound :: js "80.00"]])
    as H by (by vm_compute).
  split; [exact H|].
  destruct (convertCasesToGBP_shape _ _ _ H) as (H0 & Hlen & _).
  split; [exact H0|exact Hlen].
Defined.

Lemma convertCase_pound lookup (r r' : row) :
  convertCase lookup r = Ok r' →
  ∃ b c v rest, r' = b :: c :: v :: rest ∧ startsWith [pound] v = true.
Proof.
  destruct r as [|b [|c [|v rest]]]; simpl; try done.
  destruct (startsWith [pound] v) eqn:Hv; intros [= <-].
  - by exists b, c, v, rest.
  - eexists b, c, _, []. split; [done|].
    unfold pound. rewrite startsWith_cons. by rewrite N.eqb_refl.
Qed.

Lemma mapR_fixed {A} (f : A → result A) (l : list A) :
  Forall (λ a, f a = Ok a) l → mapR f l = Ok l.
Proof.
  induction 1 as [|a l Ha _ IH]; simpl; [done|]. by rewrite Ha, IH.
Qed.

(** X6. Every case value the normaliser emits starts with the pound sign,
    so normalising its output again, with any table, changes nothing. *)
Theorem convertCasesToGBP_idempotent lookup lookup' (brokerCases : list row) out :
  convertCasesToGBP brokerCases lookup = Ok out →
  brokerCases ≠ [] →
  ∃ rows : list row,
    out = Some <$> rows ∧
    Forall (λ r : row, ∃ b c v rest,
              r = b :: c :: v :: rest ∧ startsWith [pound] v = true)
      (drop 1 rows) ∧
    convertCasesToGBP rows lookup' = Ok out.
Proof.
  intros Hout Hne.
  destruct (convertCasesToGBP_inv _ _ _ Hout) as (cv & -> & Hcv).
  destruct brokerCases as [|h rows]; [done|]. simpl in *. rewrite drop_0 in Hcv.
  assert (Forall (λ r : row, ∃ b c v rest,
              r = b :: c :: v :: rest ∧ startsWith [pound] v = true) cv) as Hp.
  { apply list.Forall_forall. intros r' Hin.
    apply list_elem_of_lookup in Hin as [i Hi].
    destruct (Forall2_lookup_r _ _ _ _ _ Hcv Hi) as (r & _ & Hr).
    by eapply convertCase_pound. }
  exists (h :: cv). split; [done|]. split; [by rewrite skipn_cons, drop_0|].
  unfold convertCasesToGBP. simpl. rewrite drop_0.
  rewrite mapR_fixed; [done|].
  eapply Forall_impl; [exact Hp|].
  intros r (b & c & v & rest & -> & Hv). simpl. by rewrite Hv.
Qed.

Lemma convertCasesToGBP_idempotent_witness :
  ∃ rows : list row,
    [Some caseHeader; Some [js "Alice"; js "1"; pound :: js "80.00"]]
    = Some <$> rows ∧
    convertCasesToGBP rows ∅
    = Ok [Some caseHeader; Some [js "Alice"; js "1"; pound :: js "80.00"]].
Proof.
  destruct (convertCasesToGBP_idempotent CURRENCY_LOOKUP ∅
              [caseHeader; [js "Alice"; js "1"; js "$100.00"]]
              [Some caseHeader; Some [js "Alice"; js "1"; pound :: js "80.00"]])
    as (rows & Hrows & _ & Hagain); [by vm_compute|done|].
  by exists rows.
Defined.

(** ** When the per-case report throws *)

Lemma mapR_throw {A B} (f : A → result B) (l : list A) e :
  (∀ a e', f a = Throw e' → e' = e) →
  Exists (λ a, f a = Throw e) l → mapR f l = Throw e.
Proof.
  intros Honly. induction 1 as [a l Ha|a l _ IH]; simpl.
  - by rewrite Ha.
  - destruct (f a) as [b|e'] eqn:Hfa; simpl.
    + by rewrite IH.
    + by rewrite (Honly _ _ Hfa).
Qed.

Lemma convertCase_error lookup (r : row) e :
  convertCase lookup r = Throw e → e = TypeError ∧ (length r < 3)%nat.
Proof.
  destruct r as [|b [|c [|v rest]]]; simpl;
    try (intros [= <-]; split; [done|lia]).
  by destruct (startsWith [pound] v).
Qed.

Lemma convertCase_short lookup (r : row) :
  (length r < 3)%nat → convertCase lookup r = Throw TypeError.
Proof. destruct r as [|b [|c [|v rest]]]; simpl; try done; lia. Qed.

(** X7. The per-case report throws exactly when some data row has fewer
    than three fields (a blank line, for one), and then throws a
    TypeError: no other input makes it throw, and it throws nothing
    else. *)
Theorem getCommissionData_throws (brokerCases : list row) sel :
  (Exists (λ r : row, (length r < 3)%nat) (drop 1 brokerCases) →
   getCommissionData brokerCases sel = Throw TypeError) ∧
  (∀ e, getCommissionData brokerCases sel = Throw e →
        e = TypeError ∧
        Exists (λ r : row, (length r < 3)%nat) (drop 1 brokerCases)).
Proof.
  assert (Exists (λ r : row, (length r < 3)%nat) (drop 1 brokerCases) →
          getCommissionData brokerCases sel = Throw TypeError) as Hshort.
  { intros Hex. unfold getCommissionData, convertCasesToGBP.
    rewrite (mapR_throw _ _ TypeError); [done| |].
    - intros r e' He. by apply convertCase_error in He as [-> _].
    - eapply Exists_impl; [exact Hex|]. intros r. apply convertCase_short. }
  split; [exact Hshort|]. intros e He.
  destruct (decide (Exists (λ r : row, (length r < 3)%nat) (drop 1 brokerCases)))
    as [Hex|Hnex].
  - rewrite (Hshort Hex) in He. by injection He as <-.
  - exfalso. apply not_Exists_Forall in Hnex; [|apply _].
    destruct (convertCasesToGBP_total CURRENCY_LOOKUP brokerCases)
      as (cv & _ & Hgbp).
    { eapply Forall_impl; [exact Hnex|]. intros r Hr. simpl in Hr. lia. }
    destruct (getCommissionData_of_gbp _ sel _ Hgbp) as (out & Hout & _).
    by rewrite Hout in He.
Qed.

Lemma getCommissionData_throws_witness :
  getCommissionData [caseHeader; [js "Alice"; js "1"; js "$1"]; [js ""]]
    (Some BONUS_TYPE_1)
  = Throw TypeError.
Proof.
  apply (proj1 (getCommissionData_throws _ _)).
  apply Exists_cons_tl, Exists_cons_hd. simpl. lia.
Defined.

(** ** The shape of the per-case report *)

(** X8. When the per-case report returns, its first row is always the
    four-column header, it has one row per input row after that, every
    data row carries the base commission £125 in its third field, and a
    data row has four fields when the selector is truthy and three when
    it is not. *)
Theorem report_shape (brokerCases : list row) sel out :
  getCommissionData brokerCases sel = Ok out →
  out !! 0%nat = Some commissionHeader ∧
  length commissionHeader = 4%nat ∧
  length out = S (length (drop 1 brokerCases)) ∧
  ∀ i (r : row), out !! S i = Some r →
    r !! 2%nat = Some (pound :: js "125") ∧
    length r = if truthy sel then 4%nat else 3%nat.
Proof.
  intros Hout. unfold getCommissionData in Hout.
  destruct (convertCasesToGBP brokerCases CURRENCY_LOOKUP) as [gbp|] eqn:Hgbp;
    [|done].
  destruct (getCommissionData_of_gbp _ sel _ Hgbp) as (rows & Hrows & Hall).
  unfold getCommissionData in Hrows. rewrite Hgbp in Hrows.
  rewrite Hrows in Hout. injection Hout as <-.
  destruct (convertCasesToGBP_inv _ _ _ Hgbp) as (cv & -> & Hcv).
  simpl in Hall. rewrite drop_0 in Hall.
  split; [done|]. split; [done|]. split.
  - simpl. f_equal.
    rewrite <- (Forall2_length _ _ _ Hall), length_fmap.
    symmetry. by eapply Forall2_length.
  - intros i r Hr. simpl in Hr.
    destruct (Forall2_lookup_r _ _ _ _ _ Hall Hr) as (g & _ & Hg).
    destruct g as [[|b [|c [|v rest]]]|]; simpl in Hg; try done.
    by destruct (truthy sel); injection Hg as <-.
Qed.

Lemma report_shape_witness :
  [commissionHeader; [js "Alice"; js "1"; pound :: js "125"]] !! 0%nat
  = Some commissionHeader ∧
  length commissionHeader = 4%nat ∧
  length [commissionHeader; [js "Alice"; js "1"; pound :: js "125"]]
  = S (length (drop 1 [caseHeader; [js "Alice"; js "1"; js "$1"]])) ∧
  ∀ i (r : row),
    [commissionHeader; [js "Alice"; js "1"; pound :: js "125"]] !! S i = Some r →
    r !! 2%nat = Some (pound :: js "125") ∧
    length r = if truthy (Some (S754_zero false)) then 4%nat else 3%nat.
Proof.
  apply (report_shape [caseHeader; [js "Alice"; js "1"; js "$1"]]
           (Some (S754_zero false))).
  by vm_compute.
Defined.

(** ** The bonus selector *)

Lemma mapR_ext {A B} (f g : A → result B) (l : list A) :
  (∀ a, f a = g a) → mapR f l = mapR g l.
Proof.
  intros Hfg. induction l as [|a l IH]; simpl; [done|]. by rewrite Hfg, IH.
Qed.

(** X9. The selector is never validated: every truthy number other than 2
    selects structure 1, and every falsy one (zero, NaN) selects no bonus,
    as leaving the argument out does. *)
Theorem selector_cases (brokerCases : list row) (x : number) :
  (truthy (Some x) = true → num_eq x BONUS_TYPE_2 = false →
   getCommissionData brokerCases (Some x)
   = getCommissionData brokerCases (Some BONUS_TYPE_1)) ∧
  (truthy (Some x) = false →
   getCommissionData brokerCases (Some x) = getCommissionData brokerCases None).
Proof.
  split.
  - intros Ht Hne. unfold getCommissionData.
    destruct (convertCasesToGBP brokerCases CURRENCY_LOOKUP); [|done]. simpl.
    rewrite (mapR_ext (commissionRow (Some x))
               (commissionRow (Some BONUS_TYPE_1))); [done|].
    intros [[|b [|c [|v rest]]]|]; try done.
    unfold commissionRow. rewrite Ht. unfold is_BONUS_TYPE_2. by rewrite Hne.
  - intros Hf. unfold getCommissionData.
    destruct (convertCasesToGBP brokerCases CURRENCY_LOOKUP); [|done]. simpl.
    rewrite (mapR_ext (commissionRow (Some x)) (commissionRow None)); [done|].
    intros [[|b [|c [|v rest]]]|]; try done.
    unfold commissionRow. by rewrite Hf.
Qed.

Lemma selector_cases_witness :
  getCommissionData [caseHeader; [js "Alice"; js "1"; pound :: js "310000.00"]]
    (Some (of_Z 3))
  = getCommissionData
      [caseHeader; [js "Alice"; js "1"; pound :: js "310000.00"]]
      (Some BONUS_TYPE_1) ∧
  getCommissionData [caseHeader; [js "Alice"; js "1"; pound :: js "310000.00"]]
    (Some NaN)
  = getCommissionData
      [caseHeader; [js "Alice"; js "1"; pound :: js "310000.00"]] None.
Proof.
  split.
  - by apply (proj1 (selector_cases _ (of_Z 3))).
  - by apply (proj2 (selector_cases _ NaN)).
Defined.

(** ** Values that are not numbers *)

Lemma num_gt_NaN (t : number) : num_gt NaN t = false.
Proof. by destruct t. Qed.

(** A case value that does not parse as a number earns no bonus, under any
    threshold and target. *)
Lemma bonusCalculator_NaN (caseValue : jsstring) threshold target :
  parseFloat (drop 1 caseValue) = NaN →
  bonusCalculator caseValue threshold target = S754_zero false.
Proof.
  intros Hnan. apply bonusCalculator_not_above. rewrite Hnan.
  apply num_gt_NaN.
Qed.

(** X10. A case in a currency the table does not list passes through the
    whole per-case report without an error: with any truthy selector its
    row comes out with the base commission £125 and a bonus of £0,
    whatever its amount. *)
Theorem unknown_currency_report (brokerCases : list row) sel i b c v rest :
  Forall (λ r : row, (3 ≤ length r)%nat) (drop 1 brokerCases) →
  brokerCases !! S i = Some (b :: c :: v :: rest) →
  startsWith [pound] v = false →
  CURRENCY_LOOKUP !! take 1 v = None →
  truthy sel = true →
  ∃ out,
    getCommissionData brokerCases sel = Ok out ∧
    out !! S i = Some [b; c; pound :: js "125"; pound :: js "0"].
Proof.
  intros Hall Hrow Hpound Hsym Hsel.
  destruct (convertCasesToGBP_total CURRENCY_LOOKUP _ Hall) as (cv & _ & Hgbp).
  destruct (convertCasesToGBP_lookup _ _ _ _ _ Hgbp Hrow) as (r' & Hr' & Hi).
  simpl in Hr'. rewrite Hpound, Hsym in Hr'. simpl in Hr'.
  rewrite num_mul_NaN in Hr'. injection Hr' as <-.
  destruct (getCommissionData_of_gbp _ sel _ Hgbp) as (out & Hout & Hrows).
  exists (commissionHeader :: out). split; [done|]. simpl.
  change (toFixed2 (parseFloat (ToString NaN))) with (js "NaN") in Hi.
  destruct (Forall2_lookup_l _ _ _ i (Some [b; c; pound :: js "NaN"]) Hrows)
    as (o & -> & Ho); [by rewrite lookup_drop|].
  simpl in Ho. rewrite Hsel in Ho. injection Ho as <-.
  rewrite !bonusCalculator_NaN by done.
  by destruct (is_BONUS_TYPE_2 sel).
Qed.

Lemma unknown_currency_report_witness :
  ∃ out,
    getCommissionData
      [caseHeader; [js "Alice"; js "1"; js "E99999999.00"]]
      (Some BONUS_TYPE_2) = Ok out ∧
    out !! 1%nat = Some [js "Alice"; js "1"; pound :: js "125"; pound :: js "0"].
Proof.
  apply (unknown_currency_report
           [caseHeader; [js "Alice"; js "1"; js "E99999999.00"]]
           (Some BONUS_TYPE_2) 0%nat (js "Alice") (js "1")
           (js "E99999999.00") []).
  - repeat constructor.
  - reflexivity.
  - reflexivity.
  - by vm_compute.
  - reflexivity.
Defined.

(** ** Broker names that meet the lookup object's own machinery *)

Lemma summaryLoop_drops_proto (rows : list row) (o : jsobject) :
  Forall (λ r : row, (4 ≤ length r)%nat) rows →
  Forall (λ r : row, brokerOf r ≠ js "hasOwnProperty") rows →
  js "hasOwnProperty" ∉ o.*1 → js "__proto__" ∉ o.*1 →
  ∃ o',
    summaryLoop o rows = Ok o' ∧
    summaryLoop o (filter (λ r, brokerOf r ≠ js "__proto__") rows) = Ok o' ∧
    js "__proto__" ∉ o'.*1.
Proof.
  intros Hlen. revert o.
  induction Hlen as [|r rows Hr _ IH]; intros o Hnames Hhas Hproto.
  - by exists o.
  - apply Forall_cons in Hnames as [Hown Hnames].
    destruct r as [|b [|c [|base [|bonus rest]]]]; simpl in Hr; try lia.
    change (brokerOf (b :: c :: base :: bonus :: rest)) with b in *.
    set (r := b :: c :: base :: bonus :: rest).
    set (v := rowTotal (default (S754_zero false) (getOwn b o)) r).
    assert (summaryStep o r = Ok (assign b v o)) as Hstep.
    { unfold summaryStep. by rewrite (proj2 (getOwn_None _ _) Hhas). }
    unfold assign in Hstep.
    destruct (decide (b = js "__proto__")) as [Hb|Hb].
    + destruct (IH o Hnames Hhas Hproto) as (o' & Hloop & Hfilt & Hp).
      exists o'. split; [simpl; by rewrite Hstep|]. split; [|done].
      rewrite filter_cons_False; [done|]. change (brokerOf r) with b. tauto.
    + destruct (IH (putOwn b v o) Hnames) as (o' & Hloop & Hfilt & Hp).
      * rewrite putOwn_keys. case_decide; [done|].
        rewrite elem_of_app, list_elem_of_singleton. intuition congruence.
      * rewrite putOwn_keys. case_decide; [done|].
        rewrite elem_of_app, list_elem_of_singleton. intuition congruence.
      * exists o'. split; [simpl; by rewrite Hstep|]. split; [|done].
        rewrite filter_cons_True by done. simpl. by rewrite Hstep.
Qed.

(** X11. A broker named [__proto__] never reaches the summary: on a report
    of rows with four fields or more and no broker named [hasOwnProperty],
    the summary returns, it is the summary of the report without the rows
    of [__proto__], and no row of it bears that name. *)
Theorem summary_drops_proto (header : row) (rows : list row) :
  Forall (λ r : row, (4 ≤ length r)%nat) rows →
  Forall (λ r : row, brokerOf r ≠ js "hasOwnProperty") rows →
  ∃ out,
    getCommissionSummaryData (header :: rows) = Ok out ∧
    getCommissionSummaryData
      (header :: filter (λ r, brokerOf r ≠ js "__proto__") rows) = Ok out ∧
    Forall (λ r : row, brokerOf r ≠ js "__proto__") out.
Proof.
  intros Hlen Hnames.
  destruct (summaryLoop_drops_proto rows [] Hlen Hnames)
    as (o' & Hloop & Hfilt & Hp); [apply not_elem_of_nil..|].
  unfold getCommissionSummaryData. simpl. rewrite !drop_0, Hloop, Hfilt.
  eexists. split; [done|]. split; [done|].
  constructor; [done|]. apply Forall_fmap, list.Forall_forall.
  intros key Hkey Heq. change (key = js "__proto__") in Heq. subst key.
  apply Hp. by rewrite <- (ownKeys_perm _).
Qed.

Lemma summary_drops_proto_witness :
  ∃ out,
    getCommissionSummaryData
      [commissionHeader;
       [js "__proto__"; js "1"; pound :: js "125"; pound :: js "0"];
       [js "Alice"; js "2"; pound :: js "125"; pound :: js "10"]] = Ok out ∧
    getCommissionSummaryData
      (commissionHeader
         :: filter (λ r, brokerOf r ≠ js "__proto__")
              [[js "__proto__"; js "1"; pound :: js "125"; pound :: js "0"];
               [js "Alice"; js "2"; pound :: js "125"; pound :: js "10"]])
    = Ok out ∧
    Forall (λ r : row, brokerOf r ≠ js "__proto__") out.
Proof.
  apply summary_drops_proto.
  - repeat constructor.
  - by repeat constructor.
Defined.

Lemma summaryLoop_error (rows : list row) (o : jsobject) e :
  summaryLoop o rows = Throw e → e = TypeError.
Proof.
  revert o; induction rows as [|r rows IH]; intros o; simpl; [done|].
  destruct (summaryStep o r) as [o'|e'] eqn:Hstep; simpl.
  - apply IH.
  - intros [= <-]. by eapply summaryStep_error.
Qed.

Lemma summaryLoop_app (rows1 rows2 : list row) (o : jsobject) :
  summaryLoop o (rows1 ++ rows2)
  = (o' ← summaryLoop o rows1; summaryLoop o' rows2).
Proof.
  revert o; induction rows1 as [|r rows1 IH]; intros o; simpl; [done|].
  destruct (summaryStep o r) as [o'|e']; simpl; [apply IH|done].
Qed.

(** X12. A broker named [hasOwnProperty] breaks the summary for everyone
    after it: if any row but the last bears that name, the summary throws
    a TypeError, whatever else the report holds. *)
Theorem summary_hasOwnProperty (header : row) (before : list row) (r next : row)
    (after : list row) :
  brokerOf r = js "hasOwnProperty" →
  getCommissionSummaryData (header :: before ++ r :: next :: after)
  = Throw TypeError.
Proof.
  intros Hr. unfold getCommissionSummaryData. simpl. rewrite drop_0.
  rewrite summaryLoop_app.
  destruct (summaryLoop [] before) as [o1|e] eqn:Hbefore; simpl.
  - destruct (summaryStep o1 r) as [o2|e] eqn:Hstep; simpl.
    + assert (getOwn (js "hasOwnProperty") o2 ≠ None) as Hown.
      { unfold summaryStep in Hstep.
        destruct (getOwn (js "hasOwnProperty") o1); [done|].
        destruct r as [|b [|c [|base [|bonus rest]]]]; try done.
        injection Hstep as <-. change b with (brokerOf
          (b :: c :: base :: bonus :: rest)). rewrite Hr.
        unfold assign. rewrite decide_False by done.
        by rewrite getOwn_putOwn, decide_True. }
      unfold summaryStep at 1.
      by destruct (getOwn (js "hasOwnProperty") o2).
    + by rewrite (summaryStep_error _ _ _ Hstep).
  - by rewrite (summaryLoop_error _ _ _ Hbefore).
Qed.

Lemma summary_hasOwnProperty_witness :
  getCommissionSummaryData
    (commissionHeader
       :: [[js "Alice"; js "1"; pound :: js "125"; pound :: js "0"]]
       ++ [js "hasOwnProperty"; js "2"; pound :: js "125"; pound :: js "0"]
       :: [js "Bob"; js "3"; pound :: js "125"; pound :: js "0"] :: [])
  = Throw TypeError.
Proof. by apply summary_hasOwnProperty. Defined.

(** ** What the summary reads *)

(** X13. The summary reads the first, third and fourth field of each data
    row and nothing else: two reports whose data rows agree on these
    fields have the same summary, whatever their headers, case ids and
    further fields. *)
Theorem summary_reads_three_fields (header header' : row) (rows rows' : list row) :
  Forall2 (λ r r' : row, r !! 0%nat = r' !! 0%nat ∧ r !! 2%nat = r' !! 2%nat
                         ∧ r !! 3%nat = r' !! 3%nat) rows rows' →
  getCommissionSummaryData (header :: rows)
  = getCommissionSummaryData (header' :: rows').
Proof.
  intros Hrows. unfold getCommissionSummaryData. simpl. rewrite !drop_0.
  assert (∀ o, summaryLoop o rows = summaryLoop o rows') as ->; [|done].
  induction Hrows as [|r r' rows rows' (H0 & H2 & H3) _ IH]; intros o; [done|].
  simpl. assert (summaryStep o r = summaryStep o r') as ->.
  { unfold summaryStep. destruct (getOwn (js "hasOwnProperty") o); [done|].
    destruct r as [|b [|c [|base [|bonus rest]]]],
             r' as [|b' [|c' [|base' [|bonus' rest']]]];
      simpl in *; try done.
    by injection H0 as ->; injection H2 as ->; injection H3 as ->. }
  destruct (summaryStep o r'); simpl; [apply IH|done].
Qed.

Lemma summary_reads_three_fields_witness :
  getCommissionSummaryData
    [commissionHeader;
     [js "Alice"; js "1"; pound :: js "125"; pound :: js "10"]]
  = getCommissionSummaryData
      [[]; [js "Alice"; js "case 7"; pound :: js "125"; pound :: js "10";
            js "note"]].
Proof. apply summary_reads_three_fields. by repeat constructor. Defined.

(** ** From cases to summary *)

Lemma commissionRow_bonus_length sel g (o : row) :
  truthy sel = true → commissionRow sel g = Ok o → length o = 4%nat.
Proof.
  intros Hsel. destruct g as [[|b [|c [|v rest]]]|]; simpl; try done.
  rewrite Hsel. by intros [= <-].
Qed.

Lemma brokerOf_lookup (r r' : row) :
  r' !! 0%nat = r !! 0%nat → brokerOf r' = brokerOf r.
Proof. unfold brokerOf. by intros ->. Qed.

(** X14. The two generators compose: a per-case report made with a truthy
    selector always has the four fields per row that the summary reads, so
    when no broker is named [__proto__] or [hasOwnProperty] the summary of
    the report returns, and it lists the brokers of the case file, each
    once, in the key order of the lookup object. *)
Theorem summary_of_report (brokerCases report : list row) sel :
  getCommissionData brokerCases sel = Ok report →
  truthy sel = true →
  Forall (λ r : row, brokerOf r ≠ js "__proto__"
                     ∧ brokerOf r ≠ js "hasOwnProperty") (drop 1 brokerCases) →
  ∃ out,
    getCommissionSummaryData report = Ok (summaryHeader :: out) ∧
    brokerOf <$> out = ownKeys (firstSeen (brokerOf <$> drop 1 brokerCases)) ∧
    Forall (λ r : row, length r = 2%nat) out.
Proof.
  intros Hreport Hsel Hnames. unfold getCommissionData in Hreport.
  destruct (convertCasesToGBP brokerCases CURRENCY_LOOKUP) as [gbp|] eqn:Hgbp;
    [|done].
  destruct (getCommissionData_of_gbp _ sel _ Hgbp) as (rows & Hrows & Hall).
  unfold getCommissionData in Hrows. rewrite Hgbp in Hrows.
  rewrite Hrows in Hreport. injection Hreport as <-.
  destruct (convertCasesToGBP_inv _ _ _ Hgbp) as (cv & -> & Hcv).
  simpl in Hall. rewrite drop_0 in Hall.
  assert (Forall2 (λ r o : row, brokerOf o = brokerOf r ∧ length o = 4%nat)
            (drop 1 brokerCases) rows) as Hboth.
  { apply Forall2_fmap_l in Hall.
    eapply Forall2_trans; [|exact Hcv|exact Hall].
    intros r r' o Hr Ho. simpl in Ho. split.
    - apply convertCase_keeps_ids in Hr as [Hr _].
      apply commissionRow_keeps_ids in Ho as [Ho _].
      apply brokerOf_lookup. congruence.
    - exact (commissionRow_bonus_length sel (Some r') o Hsel Ho). }
  assert (brokerOf <$> rows = brokerOf <$> drop 1 brokerCases) as Hsame.
  { clear -Hboth. induction Hboth as [|r o l1 l2 [Hb _] _ IH]; [done|].
    by rewrite !fmap_cons, Hb, IH. }
  destruct (summaryLoop_spec rows []) as (o' & Hloop & Hkeys & Hvals).
  - eapply Forall2_Forall_r; [exact Hboth|].
    apply list.Forall_forall. intros r _ o [_ Ho]. lia.
  - clear -Hboth Hnames.
    induction Hboth as [|r o l1 l2 [Hb _] _ IH]; [done|].
    apply Forall_cons in Hnames as [Hr Hnames].
    constructor; [by rewrite Hb|by apply IH].
  - apply not_elem_of_nil.
  - unfold getCommissionSummaryData. simpl. rewrite drop_0, Hloop. simpl.
    eexists. split; [done|].
    rewrite Hkeys, Hsame. simpl. rewrite filter_not_in_nil. split.
    + rewrite <- list_fmap_compose. rewrite <- list_fmap_id.
      by apply list_fmap_ext.
    + by apply Forall_fmap, list.Forall_forall.
Qed.

Lemma summary_of_report_witness :
  ∃ out,
    getCommissionSummaryData
      [commissionHeader;
       [js "Bob"; js "1"; pound :: js "125"; pound :: js "0"];
       [js "Alice"; js "2"; pound :: js "125"; pound :: js "210"];
       [js "Bob"; js "3"; pound :: js "125"; pound :: js "10"]]
    = Ok (summaryHeader :: out) ∧
    brokerOf <$> out = [js "Bob"; js "Alice"].
Proof.
  destruct (summary_of_report
              [caseHeader; [js "Bob"; js "1"; js "$100.00"];
               [js "Alice"; js "2"; pound :: js "310000.00"];
               [js "Bob"; js "3"; pound :: js "110000.00"]]
              [commissionHeader;
               [js "Bob"; js "1"; pound :: js "125"; pound :: js "0"];
               [js "Alice"; js "2"; pound :: js "125"; pound :: js "210"];
               [js "Bob"; js "3"; pound :: js "125"; pound :: js "10"]]
              (Some BONUS_TYPE_1))
    as (out & Hout & Hnames & _).
  - by vm_compute.
  - reflexivity.
  - by repeat constructor.
  - exists out. split; [exact Hout|]. rewrite Hnames. by vm_compute.
Defined.

(** ** Files without cases *)

(** X15. The first line of a file is never read: when the text of the
    input file, less the white space around it, holds no line break,
    whatever else it holds (nothing at all, for a file that is empty or
    blank), the per-case generator has its four-column header alone to
    write and the summary generator its header alone; the header is
    written when the output can be written, and the run throws when it
    cannot. *)
Theorem one_line_file (i o : jsstring) (sel : option number)
    (fs : filesystem) (pre body post : jsstring) :
  fs_files fs !! i = Some (pre ++ body ++ post) →
  blank pre → blank post → trimmed body →
  (∀ n, startsWith crlf (drop n body) = false) →
  createCommissionCSV i o (λ rows, getCommissionData rows sel) fs
  = (if fs_writable fs o
     then Ok (written o
                (js "BrokerName,CaseId,BaseCommission,BonusCommission") fs)
     else Throw IOError) ∧
  createCommissionCSV i o getCommissionSummaryData fs
  = (if fs_writable fs o
     then Ok (written o (js "BrokerName,TotalCommission") fs)
     else Throw IOError).
Proof.
  intros Hfile Hpre Hpost Hbody Hfree.
  rewrite !(createCommissionCSV_padded i o _ fs pre body post) by done.
  unfold convertCSVStrToArr.
  rewrite split_crlf_eq, split_from_crlf_one by done.
  split; reflexivity.
Qed.

Lemma one_line_file_witness :
  createCommissionCSV (js "in") (js "out")
    (λ rows, getCommissionData rows (Some BONUS_TYPE_1))
    {| fs_files := {[ js "in" := js " " ++ js "anything" ++ crlf ]};
       fs_writable := λ name, bool_decide (name = js "out") |}
  = Ok (written (js "out")
          (js "BrokerName,CaseId,BaseCommission,BonusCommission")
          {| fs_files := {[ js "in" := js " " ++ js "anything" ++ crlf ]};
             fs_writable := λ name, bool_decide (name = js "out") |}) ∧
  createCommissionCSV (js "in") (js "in") getCommissionSummaryData
    {| fs_files := {[ js "in" := js " " ++ js "anything" ++ crlf ]};
       fs_writable := λ name, bool_decide (name = js "out") |}
  = Throw IOError.
Proof.
  assert (∀ o,
    createCommissionCSV (js "in") o
      (λ rows, getCommissionData rows (Some BONUS_TYPE_1))
      {| fs_files := {[ js "in" := js " " ++ js "anything" ++ crlf ]};
         fs_writable := λ name, bool_decide (name = js "out") |}
    = (if bool_decide (o = js "out")
       then Ok (written o
                  (js "BrokerName,CaseId,BaseCommission,BonusCommission")
                  {| fs_files :=
                       {[ js "in" := js " " ++ js "anything" ++ crlf ]};
                     fs_writable := λ name, bool_decide (name = js "out") |})
       else Throw IOError) ∧
    createCommissionCSV (js "in") o getCommissionSummaryData
      {| fs_files := {[ js "in" := js " " ++ js "anything" ++ crlf ]};
         fs_writable := λ name, bool_decide (name = js "out") |}
    = (if bool_decide (o = js "out")
       then Ok (written o (js "BrokerName,TotalCommission")
                  {| fs_files :=
                       {[ js "in" := js " " ++ js "anything" ++ crlf ]};
                     fs_writable := λ name, bool_decide (name = js "out") |})
       else Throw IOError)) as H.
  { intros o.
    apply (one_line_file (js "in") o (Some BONUS_TYPE_1)
             {| fs_files := {[ js "in" := js " " ++ js "anything" ++ crlf ]};
                fs_writable := λ name, bool_decide (name = js "out") |}
             (js " ") (js "anything") crlf).
    - by vm_compute.
    - by repeat constructor.
    - apply blank_crlf.
    - split; intros c Hc; vm_compute in Hc; by injection Hc as <-.
    - intros n. do 9 (destruct n as [|n]; [by vm_compute|]). by vm_compute. }
  split.
  - exact (proj1 (H (js "out"))).
  - exact (proj2 (H (js "in"))).
Defined.

(** ** Reports that read back *)

Lemma startsWith_app_r (p l post : jsstring) :
  startsWith p l = true → startsWith p (l ++ post) = true.
Proof.
  revert l; induction p as [|a p IH]; intros [|b l]; try done.
  simpl app. rewrite !startsWith_cons.
  intros [-> Hp]%andb_prop. by rewrite IH.
Qed.

(** A text without line breaks has none in any part of it. *)
Lemma crlf_free_infix (pre f post : jsstring) :
  (∀ i, startsWith crlf (drop i (pre ++ f ++ post)) = false) →
  ∀ i, startsWith crlf (drop i f) = false.
Proof.
  intros Hfree i. specialize (Hfree (length pre + i)%nat).
  rewrite drop_app_add in Hfree.
  destruct (startsWith crlf (drop i f)) eqn:Hs; [|done].
  destruct (decide (i ≤ length f)%nat) as [Hi|Hi].
  - rewrite drop_app_le in Hfree by done.
    by rewrite (startsWith_app_r _ _ _ Hs) in Hfree.
  - by rewrite drop_ge in Hs by lia.
Qed.

Lemma join_elem_of (sep f : jsstring) (fields : list jsstring) :
  f ∈ fields → ∃ pre post, join sep fields = pre ++ f ++ post.
Proof.
  induction fields as [|g fields IH]; [by intros ?%elem_of_nil|].
  intros [->|Hin]%elem_of_cons.
  - destruct fields as [|h fields].
    + exists [], []. by rewrite app_nil_r.
    + exists [], (sep ++ join sep (h :: fields)). by rewrite join_cons.
  - destruct (IH Hin) as (pre & post & Heq).
    destruct fields as [|h fields]; [by apply elem_of_nil in Hin|].
    exists (g ++ sep ++ pre), post.
    by rewrite join_cons, Heq, <- !app_assoc.
Qed.

(** Fields without line breaks, joined by commas, make a line without. *)
Lemma crlf_free_comma (a rest : jsstring) :
  (∀ i, startsWith crlf (drop i a) = false) →
  (∀ i, startsWith crlf (drop i rest) = false) →
  ∀ i, startsWith crlf (drop i (a ++ comma ++ rest)) = false.
Proof.
  change (comma ++ rest) with (44%N :: rest).
  induction a as [|x a IH]; intros Ha Hrest i.
  - destruct i as [|i]; [done|apply Hrest].
  - destruct i as [|i].
    + pose proof (Ha 0%nat) as H0. rewrite drop_0 in *.
      destruct a as [|y a]; [|exact H0].
      unfold crlf. simpl app. rewrite !startsWith_cons.
      by destruct (13 =? x)%N.
    + apply IH; [|done]. intros j. apply (Ha (S j)).
Qed.

Lemma join_csvFields (r : row) :
  Forall csvField r →
  ∀ i, startsWith crlf (drop i (join comma r)) = false.
Proof.
  induction 1 as [|f r [_ Hf] Hr IH]; [intros i; by destruct i|].
  destruct r as [|g r]; [done|].
  rewrite join_cons by done. by apply crlf_free_comma.
Qed.

(** Rows of such fields are read back as they were written. *)
Lemma parse_serialise_csvFields (rows : list row) :
  rows ≠ [] →
  Forall (λ r : row, r ≠ [] ∧ Forall csvField r) rows →
  convertCSVStrToArr (convertArrayToCSVStr rows) = rows.
Proof.
  intros Hne Hall. rewrite convertArrayToCSVStr_join.
  unfold convertCSVStrToArr. rewrite split_join_crlf.
  - rewrite <- list_fmap_compose. rewrite <- (list_fmap_id rows) at 2.
    apply list_fmap_ext. intros i r Hr. simpl.
    rewrite list.Forall_forall in Hall.
    destruct (Hall r) as (Hr1 & Hr2); [by eapply list_elem_of_lookup_2|].
    apply split_join_comma; [done|].
    eapply Forall_impl; [exact Hr2|]. by intros f [Hf _].
  - by destruct rows.
  - apply Forall_fmap. eapply Forall_impl; [exact Hall|].
    intros r [_ Hr] i. by apply join_csvFields.
Qed.

(** Every field that parsing produces is such a field. *)
Lemma parsed_csvFields (T : jsstring) :
  Forall (λ r : row, r ≠ [] ∧ Forall csvField r) (convertCSVStrToArr T).
Proof.
  unfold convertCSVStrToArr. rewrite split_crlf_eq.
  apply Forall_fmap. eapply Forall_impl; [apply (split_from_crlf_free T 0)|].
  intros line Hline.
  change (split comma line ≠ [] ∧ Forall csvField (split comma line)).
  rewrite split_comma_eq. split; [apply split_from_nonempty|].
  apply list.Forall_forall. intros f Hf. split.
  - by apply (proj1 (list.Forall_forall _ _) (split_from_comma_free line)).
  - destruct (join_elem_of comma f _ Hf) as (pre & post & Heq).
    rewrite <- split_comma_eq, join_split in Heq by done.
    apply (crlf_free_infix pre f post). by rewrite <- Heq.
Qed.

(** The code units of a printed number: digits, [.], [e], signs and the
    letters of [NaN] and [Infinity]; never a comma or a line feed. *)
Lemma uint_digits_chars (d : Decimal.uint) :
  Forall (λ c, c ≠ 44%N ∧ c ≠ 10%N) (uint_digits d).
Proof. induction d; simpl; constructor; done. Qed.

Lemma zeros_chars (n : Z) : Forall (λ c, c ≠ 44%N ∧ c ≠ 10%N) (zeros n).
Proof. unfold zeros. by apply Forall_replicate. Qed.

Ltac printed_chars :=
  repeat first
    [ apply Forall_app; split
    | apply Forall_take
    | apply Forall_drop
    | apply uint_digits_chars
    | apply zeros_chars
    | by (apply (bool_decide_unpack _); vm_compute)
    | by (repeat constructor; repeat case_match) ].

Lemma toString_pos_chars (m : positive) (e : Z) :
  Forall (λ c, c ≠ 44%N ∧ c ≠ 10%N) (toString_pos m e).
Proof.
  unfold toString_pos, digitsOf.
  destruct (fraction_of m e) as [num den].
  destruct (shortest _ _ _ _ _ _) as [s0 q0].
  destruct (strip_zeros _ _ _) as [s q].
  repeat case_match; printed_chars.
Qed.

Lemma ToString_chars (x : number) :
  Forall (λ c, c ≠ 44%N ∧ c ≠ 10%N) (ToString x).
Proof.
  unfold ToString. destruct x as [s|s| |s m e]; try destruct s;
    first [apply toString_pos_chars
          | apply Forall_app; split;
            [by (apply (bool_decide_unpack _); vm_compute)
            |apply toString_pos_chars]
          | by (apply (bool_decide_unpack _); vm_compute) ].
Qed.

Lemma csvField_of_chars (f : jsstring) :
  Forall (λ c, c ≠ 44%N ∧ c ≠ 10%N) f → csvField f.
Proof.
  intros Hf. split.
  - intros Hin. rewrite list.Forall_forall in Hf. by destruct (Hf _ Hin).
  - intros i. pose proof (Forall_drop _ i _ Hf) as Hd.
    destruct (drop i f) as [|x [|y l]]; [done| |].
    + unfold crlf. rewrite startsWith_cons. by destruct (13 =? x)%N.
    + unfold crlf. rewrite !startsWith_cons.
      apply Forall_cons in Hd as [_ [[_ Hy] _]%Forall_cons].
      destruct (N.eqb_spec 10 y); [congruence|]. by destruct (13 =? x)%N.
Qed.

Lemma csvField_money (x : number) : csvField (pound :: ToString x).
Proof.
  apply csvField_of_chars. constructor; [done|apply ToString_chars].
Qed.

Lemma csvField_literal (f : jsstring) :
  bool_decide (Forall (λ c, c ≠ 44%N ∧ c ≠ 10%N) f) = true → csvField f.
Proof. intros Hf%bool_decide_eq_true_1. by apply csvField_of_chars. Qed.

Lemma report_csvFields (brokerCases report : list row) sel :
  Forall (λ r : row, r ≠ [] ∧ Forall csvField r) (drop 1 brokerCases) →
  getCommissionData brokerCases sel = Ok report →
  Forall (λ r : row, r ≠ [] ∧ Forall csvField r) report.
Proof.
  intros Hin Hreport. unfold getCommissionData in Hreport.
  destruct (convertCasesToGBP brokerCases CURRENCY_LOOKUP) as [gbp|] eqn:Hgbp;
    [|done].
  destruct (getCommissionData_of_gbp _ sel _ Hgbp) as (rows & Hrows & Hall).
  unfold getCommissionData in Hrows. rewrite Hgbp in Hrows.
  rewrite Hrows in Hreport. injection Hreport as <-.
  destruct (convertCasesToGBP_inv _ _ _ Hgbp) as (cv & -> & Hcv).
  simpl in Hall. rewrite drop_0 in Hall. apply Forall2_fmap_l in Hall.
  constructor.
  - split; [done|]. repeat apply Forall_cons_2; [..|apply Forall_nil_2];
      by apply csvField_literal.
  - eapply Forall2_Forall_r;
      [exact (Forall2_trans _ _ (λ r o : row,
                ∃ r', convertCase CURRENCY_LOOKUP r = Ok r'
                      ∧ commissionRow sel (Some r') = Ok o)
                _ _ _ (λ r r' o Hr Ho, ex_intro _ r' (conj Hr Ho)) Hcv Hall)|].
    eapply Forall_impl; [exact Hin|].
    intros r [_ Hr] o (r' & Hr' & Ho).
    destruct r as [|b [|c [|v rest]]]; try done.
    apply Forall_cons in Hr as [Hb [Hc _]%Forall_cons].
    assert (∃ v' rest', r' = b :: c :: v' :: rest') as (v' & rest' & ->).
    { simpl in Hr'. destruct (startsWith [pound] v); injection Hr' as <-; eauto. }
    simpl in Ho. destruct (truthy sel); injection Ho as <-.
    + split; [done|]. repeat apply Forall_cons_2; [..|apply Forall_nil_2];
        first [done|apply csvField_money].
    + split; [done|]. repeat apply Forall_cons_2; [..|apply Forall_nil_2];
        first [done|apply csvField_money].
Qed.

(** X16. What the per-case pipeline writes is a CSV that reads back: for
    every input text on which it returns, parsing the text it produced
    gives exactly the report rows, so no field of a report ever holds a
    comma or a line break. *)
Theorem report_reads_back (T : jsstring) sel (csv : jsstring) :
  getCaseCommissionData T (λ rows, getCommissionData rows sel) = Ok csv →
  ∃ report,
    getCommissionData (convertCSVStrToArr T) sel = Ok report ∧
    convertCSVStrToArr csv = report.
Proof.
  unfold getCaseCommissionData.
  destruct (getCommissionData (convertCSVStrToArr T) sel) as [report|] eqn:Hrep;
    [|done].
  simpl. intros [= <-]. exists report. split; [done|].
  apply parse_serialise_csvFields.
  - unfold getCommissionData in Hrep.
    destruct (convertCasesToGBP _ _); [|done]. simpl in Hrep.
    destruct (mapR _ _); [|done]. simpl in Hrep. by injection Hrep as <-.
  - eapply report_csvFields; [|exact Hrep].
    apply Forall_drop, parsed_csvFields.
Qed.

Lemma report_reads_back_witness :
  ∃ report,
    getCommissionData
      (convertCSVStrToArr
         (js "BrokerName,CaseId,CaseValue" ++ crlf ++ js "Alice,1,$100.00"))
      (Some BONUS_TYPE_1) = Ok report ∧
    convertCSVStrToArr
      (js "BrokerName,CaseId,BaseCommission,BonusCommission" ++ crlf
         ++ js "Alice,1," ++ [pound] ++ js "125," ++ [pound] ++ js "0")
    = report.
Proof.
  apply (report_reads_back
           (js "BrokerName,CaseId,CaseValue" ++ crlf ++ js "Alice,1,$100.00")).
  by vm_compute.
Defined.

Lemma summaryLoop_keys (rows : list row) (o o' : jsobject) :
  Forall (λ r : row, Forall csvField r) rows →
  Forall csvField o.*1 →
  summaryLoop o rows = Ok o' → Forall csvField o'.*1.
Proof.
  intros Hrows. revert o.
  induction Hrows as [|r rows Hr _ IH]; intros o Ho; simpl.
  - by intros [= <-].
  - destruct (summaryStep o r) as [o1|] eqn:Hstep; [|done]. simpl.
    apply IH. unfold summaryStep in Hstep.
    destruct (getOwn (js "hasOwnProperty") o); [done|].
    destruct r as [|b [|c [|base [|bonus rest]]]]; try done.
    injection Hstep as <-. unfold assign. case_decide; [done|].
    rewrite putOwn_keys. case_decide; [done|].
    apply Forall_app. split; [done|].
    apply Forall_cons in Hr as [Hb _]. by constructor.
Qed.

(** X17. What the summary pipeline writes reads back too: for every input
    text on which it returns, parsing the text it produced gives exactly
    the summary rows. *)
Theorem summary_reads_back (T csv : jsstring) :
  getCaseCommissionData T getCommissionSummaryData = Ok csv →
  ∃ summary,
    getCommissionSummaryData (convertCSVStrToArr T) = Ok summary ∧
    convertCSVStrToArr csv = summary.
Proof.
  unfold getCaseCommissionData.
  destruct (getCommissionSummaryData (convertCSVStrToArr T)) as [summary|]
    eqn:Hsum; [|done].
  simpl. intros [= <-]. exists summary. split; [done|].
  unfold getCommissionSummaryData in Hsum.
  destruct (summaryLoop [] (drop 1 (convertCSVStrToArr T))) as [o'|] eqn:Hloop;
    [|done].
  simpl in Hsum. injection Hsum as <-.
  apply parse_serialise_csvFields; [done|].
  assert (Forall csvField o'.*1) as Hkeys.
  { eapply (summaryLoop_keys _ []); [|by constructor|exact Hloop].
    apply Forall_drop. eapply Forall_impl; [apply parsed_csvFields|].
    by intros r [_ Hr]. }
  constructor.
  - split; [done|]. repeat apply Forall_cons_2; [..|apply Forall_nil_2];
      by apply csvField_literal.
  - apply Forall_fmap, list.Forall_forall. intros key Hkey.
    split; [done|].
    apply Forall_cons_2; [|apply Forall_cons_2; [apply csvField_money|done]].
    rewrite list.Forall_forall in Hkeys. apply Hkeys.
    by rewrite <- (ownKeys_perm _).
Qed.

Lemma summary_reads_back_witness :
  ∃ summary,
    getCommissionSummaryData
      (convertCSVStrToArr
         (js "BrokerName,CaseId,BaseCommission,BonusCommission" ++ crlf
            ++ js "Alice,1," ++ [pound] ++ js "125," ++ [pound] ++ js "0"))
    = Ok summary ∧
    convertCSVStrToArr
      (js "BrokerName,TotalCommission" ++ crlf ++ js "Alice," ++ [pound]
         ++ js "125")
    = summary.
Proof.
  apply (summary_reads_back
           (js "BrokerName,CaseId,BaseCommission,BonusCommission" ++ crlf
              ++ js "Alice,1," ++ [pound] ++ js "125," ++ [pound] ++ js "0")).
  by vm_compute.
Defined.
